(** * prisma-appsync: query normalizer, depth guard and shield authorization

    A shallow embedding of the shield of prisma-appsync ([getAuthorization]),
    of its client ([PrismaAppSync], whose preview is [_client.ts]) and of the
    adapter described by the specification and exercised by
    [adapter.spec.ts], with the properties the specification states about
    them. *)

From Stdlib Require Import List String Ascii ZArith Lia Bool.
From Stdlib Require DecimalString.
Import ListNotations.
Local Open Scope string_scope.
Local Open Scope Z_scope.
#[local] Set Warnings "-register-all".

(** ** JavaScript values

    The trees the client passes around ([where], [data], the Prisma filter of a
    shield rule) are plain JSON-like values; an object keeps its keys in
    enumeration order. *)

Inductive JValue : Type :=
| JUndefined
| JNull
| JBool (b : bool)
| JNum (n : Z)
| JStr (s : string)
| JArr (items : list JValue)
| JObj (props : list (string * JValue)).

(** [!!v]: the values JavaScript treats as true in a condition. *)
Definition truthy (v : JValue) : bool :=
  match v with
  | JUndefined | JNull => false
  | JBool b => b
  | JNum n => negb (n =? 0)
  | JStr s => negb (s =? "")%string
  | JArr _ | JObj _ => true
  end.

(** [typeof v === 'boolean'] *)
Definition isBoolean (v : JValue) : bool :=
  match v with JBool _ => true | _ => false end.

(** [typeof v === 'undefined'] *)
Definition isUndefined (v : JValue) : bool :=
  match v with JUndefined => true | _ => false end.

Definition isObject (v : JValue) : bool :=
  match v with JObj _ => true | _ => false end.

(** [obj[key]] on the property list of an object. *)
Fixpoint getProp (key : string) (props : list (string * JValue)) : JValue :=
  match props with
  | [] => JUndefined
  | (k, v) :: rest => if (k =? key)%string then v else getProp key rest
  end.

(** [obj[key] = v]: an existing key keeps its place, a new key goes last. *)
Fixpoint setProp (key : string) (v : JValue) (props : list (string * JValue))
  : list (string * JValue) :=
  match props with
  | [] => [(key, v)]
  | (k, w) :: rest =>
      if (k =? key)%string then (k, v) :: rest else (k, w) :: setProp key v rest
  end.

(** ** Shield authorization ([getAuthorization]) *)

Module Shield.

(** [reason?: string | Function] *)
Inductive Reason : Type :=
| ReasonString (s : string)
| ReasonFunction (f : unit -> string).

(** [boolean | { rule: boolean | any, reason?: string | Function }] *)
Inductive ShieldRule : Type :=
| RuleBoolean (b : bool)
| RuleObject (rule : JValue) (reason : option Reason).

(** The shield is a JavaScript object keyed by glob patterns; it is kept as the
    sequence of its entries in the order [for (const globPattern in shield)]
    enumerates them (for glob patterns, which are not array indices, the order
    in which the keys were defined). *)
Definition Shield : Type := list (string * ShieldRule).

Record Authorization : Type := mkAuthorization {
  canAccess : bool;
  reason : option Reason;      (* [None] is [null] *)
  prismaFilter : JValue;       (* [JNull] until a filter rule matches *)
  matcher : option string      (* [None] is [null] *)
}.

Definition initialAuthorization : Authorization :=
  {| canAccess := true; reason := None; prismaFilter := JNull; matcher := None |}.

Section Engine.

(** [micromatch.isMatch(path, globPattern)] and lodash's
    [merge(object, source1, source2)] are imported libraries. *)
Variable isMatch : string -> string -> bool.
Variable merge : JValue -> JValue -> JValue -> JValue.

(** Field assignments on the [authorization] object. *)
Definition setCanAccess (b : bool) (a : Authorization) : Authorization :=
  {| canAccess := b; reason := reason a;
     prismaFilter := prismaFilter a; matcher := matcher a |}.

Definition setPrismaFilter (f : JValue) (a : Authorization) : Authorization :=
  {| canAccess := canAccess a; reason := reason a;
     prismaFilter := f; matcher := matcher a |}.

Definition setMatcher (m : string) (a : Authorization) : Authorization :=
  {| canAccess := canAccess a; reason := reason a;
     prismaFilter := prismaFilter a; matcher := Some m |}.

Definition setReason (r : Reason) (a : Authorization) : Authorization :=
  {| canAccess := canAccess a; reason := Some r;
     prismaFilter := prismaFilter a; matcher := matcher a |}.

(** The body of the inner loop, for one entry of the shield. *)
Definition applyRule (path : string) (authorization : Authorization)
  (entry : string * ShieldRule) : Authorization :=
  let (globPattern, shieldRule) := entry in
  if isMatch path globPattern then
    let authorization :=
      match shieldRule with
      | RuleBoolean b => setCanAccess b authorization
      | RuleObject rule _ =>
          match rule with
          | JBool b => setCanAccess b authorization
          | _ =>
              let authorization := setCanAccess true authorization in
              let authorization :=
                if negb (truthy (prismaFilter authorization))
                then setPrismaFilter (JObj []) authorization
                else authorization in
              setPrismaFilter
                (merge (JObj []) (prismaFilter authorization) rule)
                authorization
          end
      end in
    let authorization := setMatcher globPattern authorization in
    setReason
      match shieldRule with
      | RuleObject _ (Some r) => r
      | _ => ReasonString ("Matcher: " ++ globPattern)
      end
      authorization
  else authorization.

(** [for (const globPattern in shield) { ... }] *)
Definition shieldLoop (shield : Shield) (path : string)
  (authorization : Authorization) : Authorization :=
  fold_left (applyRule path) shield authorization.

(** [for (let i = paths.length - 1; i >= 0; i--) { ... }]; [n] is [i + 1]. *)
Fixpoint pathsLoop (shield : Shield) (paths : list string) (n : nat)
  (authorization : Authorization) : Authorization :=
  match n with
  | O => authorization
  | S i => pathsLoop shield paths i
             (shieldLoop shield (nth i paths "") authorization)
  end.

Definition getAuthorization (shield : Shield) (paths : list string)
  : Authorization :=
  pathsLoop shield paths (List.length paths) initialAuthorization.

(** *** The scan, as the specification words it *)

(** The entries of the shield whose pattern matches [path], in shield order. *)
Definition matchingRules (shield : Shield) (path : string) : Shield :=
  filter (fun entry => isMatch path (fst entry)) shield.

(** Every match of the scan, in the order met: paths from the last to the
    first, and for each path the shield entries in their order. *)
Definition scanMatches (shield : Shield) (paths : list string) : Shield :=
  flat_map (matchingRules shield) (List.rev paths).

(** A rule whose [rule] field is not a boolean: a Prisma filter. *)
Definition isFilterRule (shieldRule : ShieldRule) : bool :=
  match shieldRule with
  | RuleBoolean _ => false
  | RuleObject rule _ => negb (isBoolean rule)
  end.

(** The filter trees of the filter rules among [matches], in order. *)
Fixpoint filterTrees (matches : Shield) : list JValue :=
  match matches with
  | [] => []
  | (_, RuleBoolean _) :: rest => filterTrees rest
  | (_, RuleObject rule _) :: rest =>
      if isBoolean rule then filterTrees rest else rule :: filterTrees rest
  end.

(** Merging one more filter tree into the accumulated filter. *)
Definition mergeFilter (accumulated tree : JValue) : JValue :=
  merge (JObj []) (if truthy accumulated then accumulated else JObj []) tree.

(** The access, the reason and the matcher a match sets. *)
Definition ruleAccess (shieldRule : ShieldRule) : bool :=
  match shieldRule with
  | RuleBoolean b => b
  | RuleObject (JBool b) _ => b
  | RuleObject _ _ => true
  end.

Definition ruleReason (globPattern : string) (shieldRule : ShieldRule) : Reason :=
  match shieldRule with
  | RuleObject _ (Some r) => r
  | _ => ReasonString ("Matcher: " ++ globPattern)
  end.

(** [a] carries the access, reason and matcher of the match [entry]. *)
Definition decidedBy (entry : string * ShieldRule) (a : Authorization) : Prop :=
  canAccess a = ruleAccess (snd entry) /\
  reason a = Some (ruleReason (fst entry) (snd entry)) /\
  matcher a = Some (fst entry).

(** [a] carries the access, reason and matcher of the last of [matches], or
    the initial ones when there is none. *)
Definition decidedByLast (matches : Shield) (a : Authorization) : Prop :=
  match last (map Some matches) None with
  | Some entry => decidedBy entry a
  | None => canAccess a = true /\ reason a = None /\ matcher a = None
  end.

(** The effect of one match on the decision, whatever path produced it. *)
Definition applyMatch (a : Authorization) (entry : string * ShieldRule)
  : Authorization :=
  {| canAccess := ruleAccess (snd entry);
     reason := Some (ruleReason (fst entry) (snd entry));
     prismaFilter :=
       match snd entry with
       | RuleBoolean _ => prismaFilter a
       | RuleObject rule _ =>
           if isBoolean rule then prismaFilter a
           else mergeFilter (prismaFilter a) rule
       end;
     matcher := Some (fst entry) |}.

(** *** The loops follow the scan *)

Lemma applyRule_match path a pat r :
  isMatch path pat = true -> applyRule path a (pat, r) = applyMatch a (pat, r).
Proof.
  intros Hm. unfold applyRule, applyMatch, mergeFilter. rewrite Hm.
  destruct r as [b | rule rsn]; [reflexivity |].
  destruct rule; simpl; try reflexivity;
    destruct (truthy (prismaFilter a)); reflexivity.
Qed.

Lemma applyRule_no_match path a pat r :
  isMatch path pat = false -> applyRule path a (pat, r) = a.
Proof. intros Hm. unfold applyRule. now rewrite Hm. Qed.

Lemma shieldLoop_matches shield path a :
  shieldLoop shield path a = fold_left applyMatch (matchingRules shield path) a.
Proof.
  unfold shieldLoop, matchingRules. revert a.
  induction shield as [| [pat r] rest IH]; intros a; [reflexivity |].
  cbn [fold_left filter fst]. destruct (isMatch path pat) eqn:Hm.
  - rewrite (applyRule_match _ _ _ _ Hm). cbn [fold_left]. apply IH.
  - rewrite (applyRule_no_match _ _ _ _ Hm). apply IH.
Qed.

Lemma fold_flat_map {A B C : Type} (f : A -> C -> A) (g : B -> list C) l a :
  fold_left f (flat_map g l) a =
  fold_left (fun a x => fold_left f (g x) a) l a.
Proof.
  revert a. induction l as [| x l IH]; intros a; [reflexivity |].
  simpl. now rewrite fold_left_app, IH.
Qed.

Lemma firstn_snoc {A : Type} (l : list A) (d : A) (i : nat) :
  (i < List.length l)%nat -> firstn (S i) l = (firstn i l ++ [nth i l d])%list.
Proof.
  revert i. induction l as [| x l IH]; intros i Hi; simpl in Hi; [lia |].
  destruct i as [| i]; [reflexivity |].
  change (x :: firstn (S i) l = x :: (firstn i l ++ [nth i l d])%list).
  now rewrite IH by lia.
Qed.

Lemma pathsLoop_firstn shield paths n a :
  (n <= List.length paths)%nat ->
  pathsLoop shield paths n a =
  fold_left applyMatch (scanMatches shield (firstn n paths)) a.
Proof.
  revert a. induction n as [| i IH]; intros a Hn.
  - reflexivity.
  - simpl pathsLoop. rewrite IH by lia. unfold scanMatches.
    assert (Hi : (i < List.length paths)%nat) by lia.
    rewrite (firstn_snoc paths "" i Hi), rev_app_distr. simpl.
    now rewrite fold_left_app, shieldLoop_matches.
Qed.

(** [getAuthorization] applies the matches in scan order to the initial
    decision. *)
Lemma getAuthorization_scan shield paths :
  getAuthorization shield paths =
  fold_left applyMatch (scanMatches shield paths) initialAuthorization.
Proof.
  unfold getAuthorization. rewrite pathsLoop_firstn by lia.
  now rewrite firstn_all.
Qed.

(** *** What a run of matches leaves in the decision *)

Lemma decidedByLast_snoc matches entry a :
  decidedByLast (matches ++ [entry])%list a <-> decidedBy entry a.
Proof.
  unfold decidedByLast. rewrite map_app. simpl. now rewrite last_last.
Qed.

Lemma fold_applyMatch_snoc matches entry a :
  decidedBy entry (fold_left applyMatch (matches ++ [entry])%list a).
Proof. rewrite fold_left_app. simpl. now unfold decidedBy. Qed.

Lemma fold_applyMatch_last matches a :
  matches <> [] -> decidedByLast matches (fold_left applyMatch matches a).
Proof.
  intros Hne. destruct (exists_last Hne) as (l & e & ->).
  apply decidedByLast_snoc, fold_applyMatch_snoc.
Qed.

Lemma fold_applyMatch_filter matches a :
  prismaFilter (fold_left applyMatch matches a) =
  fold_left mergeFilter (filterTrees matches) (prismaFilter a).
Proof.
  revert a. induction matches as [| [pat r] rest IH]; intros a; [reflexivity |].
  cbn [fold_left]. rewrite IH. destruct r as [b | rule rsn]; [reflexivity |].
  cbn [filterTrees applyMatch prismaFilter snd].
  destruct (isBoolean rule); reflexivity.
Qed.

Lemma scanMatches_cons shield path rest :
  scanMatches shield (path :: rest) =
  (scanMatches shield rest ++ matchingRules shield path)%list.
Proof.
  unfold scanMatches. simpl. rewrite flat_map_app. simpl.
  now rewrite app_nil_r.
Qed.

Lemma In_scanMatches shield paths entry :
  In entry (scanMatches shield paths) <->
  exists path, In path paths /\ In entry shield /\
               isMatch path (fst entry) = true.
Proof.
  unfold scanMatches, matchingRules. rewrite in_flat_map. split.
  - intros (path & Hp & He). apply filter_In in He. exists path.
    rewrite in_rev. tauto.
  - intros (path & Hp & He & Hm). exists path. rewrite <- in_rev.
    split; [assumption |]. apply filter_In. tauto.
Qed.

Lemma filterTrees_nil matches :
  filterTrees matches = [] <->
  forall entry, In entry matches -> isFilterRule (snd entry) = false.
Proof.
  induction matches as [| [pat r] rest IH]; simpl.
  - split; [intros _ e [] | reflexivity].
  - destruct r as [b | rule rsn]; simpl.
    + rewrite IH. split.
      * intros H e [<- | He]; [reflexivity | now apply H].
      * intros H e He. apply H. now right.
    + destruct (isBoolean rule) eqn:Hb; simpl.
      * rewrite IH. split.
        -- intros H e [<- | He]; [simpl; now rewrite Hb | now apply H].
        -- intros H e He. apply H. now right.
      * split; [discriminate |]. intros H.
        specialize (H (pat, RuleObject rule rsn) (or_introl eq_refl)).
        simpl in H. rewrite Hb in H. discriminate.
Qed.

Lemma fold_applyMatch_initial matches :
  matches = [] ->
  fold_left applyMatch matches initialAuthorization = initialAuthorization.
Proof. now intros ->. Qed.

(** *** Lodash's [merge] returns its destination object *)

Definition returnsObject : Prop :=
  forall a b, isObject (merge (JObj []) a b) = true.

Lemma fold_mergeFilter_object trees accumulated :
  returnsObject -> trees <> [] ->
  isObject (fold_left mergeFilter trees accumulated) = true.
Proof.
  intros Hobj Hne. destruct (exists_last Hne) as (l & t & ->).
  rewrite fold_left_app. simpl. apply Hobj.
Qed.

(** *** Properties of the authorization engine *)

(** C1. The engine applies the matches in scan order (paths from the last to
    the first, and for each path the shield entries in their order) to the
    initial decision; [canAccess], [reason] and [matcher] of the result are
    those of the last match of that scan. So when an entry matches the path
    listed first, the last entry of the shield that matches it decides: it
    overrides the matches of the paths listed later and the earlier entries
    matching the same path. *)
Theorem getAuthorization_last_match_wins (shield : Shield) (paths : list string) :
  getAuthorization shield paths =
    fold_left applyMatch
      (flat_map (matchingRules shield) (List.rev paths)) initialAuthorization /\
  decidedByLast (scanMatches shield paths) (getAuthorization shield paths) /\
  (forall path rest,
      paths = path :: rest -> matchingRules shield path <> [] ->
      decidedByLast (matchingRules shield path) (getAuthorization shield paths)).
Proof.
  split; [apply getAuthorization_scan |]. rewrite getAuthorization_scan. split.
  - destruct (scanMatches shield paths) as [| e l] eqn:Hs.
    + cbv. auto.
    + apply fold_applyMatch_last. discriminate.
  - intros path rest -> Hne. rewrite scanMatches_cons.
    destruct (exists_last Hne) as (l & e & ->).
    rewrite app_assoc. apply decidedByLast_snoc, fold_applyMatch_snoc.
Qed.

(** C2. A matching rule whose [rule] field is not a boolean sets [canAccess]
    to true and merges its filter tree into the accumulated filter; any other
    entry leaves the filter as it is; and the filter of the result is the
    merge, in scan order, of the filter trees of all the matching filter rules
    of the scan, whichever match decides [canAccess]. *)
Theorem getAuthorization_filter_accumulates (shield : Shield) (paths : list string) :
  (forall path a pat rule rsn,
      isMatch path pat = true -> isBoolean rule = false ->
      canAccess (applyRule path a (pat, RuleObject rule rsn)) = true /\
      prismaFilter (applyRule path a (pat, RuleObject rule rsn)) =
        merge (JObj [])
          (if truthy (prismaFilter a) then prismaFilter a else JObj []) rule) /\
  (forall path a pat r,
      isFilterRule r = false ->
      prismaFilter (applyRule path a (pat, r)) = prismaFilter a) /\
  prismaFilter (getAuthorization shield paths) =
    fold_left mergeFilter (filterTrees (scanMatches shield paths)) JNull.
Proof.
  split; [| split].
  - intros path a pat rule rsn Hm Hb. rewrite (applyRule_match _ _ _ _ Hm).
    unfold applyMatch. cbn [snd canAccess prismaFilter]. rewrite Hb.
    destruct rule; try discriminate; split; reflexivity.
  - intros path a pat r Hr. destruct (isMatch path pat) eqn:Hm.
    + rewrite (applyRule_match _ _ _ _ Hm). destruct r as [b | rule rsn];
        [reflexivity |]. cbn [applyMatch prismaFilter snd].
      simpl in Hr. destruct (isBoolean rule); [reflexivity | discriminate].
    + now rewrite (applyRule_no_match _ _ _ _ Hm).
  - rewrite getAuthorization_scan. apply fold_applyMatch_filter.
Qed.

(** C8. When no glob pattern of the shield matches any of the paths, and so
    for an empty shield and for an empty list of paths, the engine returns the
    initial decision: access allowed, no reason, no filter, no matcher. *)
Theorem getAuthorization_default_allow :
  (forall shield paths,
      (forall path entry,
          In path paths -> In entry shield -> isMatch path (fst entry) = false) ->
      getAuthorization shield paths =
        {| canAccess := true; reason := None;
           prismaFilter := JNull; matcher := None |}) /\
  (forall paths, getAuthorization [] paths = initialAuthorization) /\
  (forall shield, getAuthorization shield [] = initialAuthorization).
Proof.
  assert (H : forall shield paths,
             (forall path entry, In path paths -> In entry shield ->
                                 isMatch path (fst entry) = false) ->
             getAuthorization shield paths = initialAuthorization).
  { intros shield paths Hno. rewrite getAuthorization_scan.
    apply fold_applyMatch_initial.
    destruct (scanMatches shield paths) as [| e l] eqn:Hs; [reflexivity |].
    assert (He : In e (scanMatches shield paths)) by (rewrite Hs; now left).
    apply In_scanMatches in He. destruct He as (path & Hp & He & Hm).
    rewrite (Hno path e Hp He) in Hm. discriminate. }
  split; [exact H | split].
  - intros paths. apply H. intros path entry _ [].
  - intros shield. reflexivity.
Qed.

(** C10. With a [merge] that returns its destination object, the filter of
    the result is non-null exactly when some entry of the shield whose [rule]
    field is not a boolean matches some path; it is null when every matching
    rule is a boolean or has a boolean [rule] field. The access plays no
    part: when the last match of the scan denies access and an earlier match
    is a filter rule, the decision is denied and still carries a filter. *)
Theorem getAuthorization_filter_null_iff (shield : Shield) (paths : list string) :
  returnsObject ->
  (prismaFilter (getAuthorization shield paths) <> JNull <->
   exists path pat r,
     In path paths /\ In (pat, r) shield /\
     isMatch path pat = true /\ isFilterRule r = true) /\
  ((forall path pat r,
       In path paths -> In (pat, r) shield -> isMatch path pat = true ->
       isFilterRule r = false) ->
   prismaFilter (getAuthorization shield paths) = JNull) /\
  (forall earlier entry,
      scanMatches shield paths = (earlier ++ [entry])%list ->
      ruleAccess (snd entry) = false ->
      (exists e, In e earlier /\ isFilterRule (snd e) = true) ->
      canAccess (getAuthorization shield paths) = false /\
      prismaFilter (getAuthorization shield paths) <> JNull).
Proof.
  intros Hobj.
  assert (Hnull : (forall entry, In entry (scanMatches shield paths) ->
                                 isFilterRule (snd entry) = false) ->
                  prismaFilter (getAuthorization shield paths) = JNull).
  { intros Hall. rewrite getAuthorization_scan, fold_applyMatch_filter.
    apply filterTrees_nil in Hall. now rewrite Hall. }
  assert (Hsome : forall entry, In entry (scanMatches shield paths) ->
                                isFilterRule (snd entry) = true ->
                  prismaFilter (getAuthorization shield paths) <> JNull).
  { intros entry He Hf. rewrite getAuthorization_scan, fold_applyMatch_filter.
    assert (Hne : filterTrees (scanMatches shield paths) <> []).
    { intros Hnil. rewrite filterTrees_nil in Hnil.
      rewrite (Hnil entry He) in Hf. discriminate. }
    pose proof (fold_mergeFilter_object _ (prismaFilter initialAuthorization)
                  Hobj Hne) as Ho.
    intros Heq. rewrite Heq in Ho. discriminate. }
  split; [split | split].
  - intros Hnn.
    destruct (existsb (fun e => isFilterRule (snd e)) (scanMatches shield paths))
      eqn:Hex.
    + apply existsb_exists in Hex. destruct Hex as ([pat r] & He & Hf).
      apply In_scanMatches in He. destruct He as (path & Hp & He & Hm).
      exists path, pat, r. auto.
    + exfalso. apply Hnn, Hnull. intros entry He.
      destruct (isFilterRule (snd entry)) eqn:Hf; [| reflexivity].
      assert (Ht : existsb (fun e => isFilterRule (snd e))
                     (scanMatches shield paths) = true)
        by (apply existsb_exists; eauto).
      rewrite Ht in Hex. discriminate.
  - intros (path & pat & r & Hp & He & Hm & Hf).
    apply (Hsome (pat, r)); [| exact Hf]. apply In_scanMatches. eauto.
  - intros Hall. apply Hnull. intros [pat r] He.
    apply In_scanMatches in He. destruct He as (path & Hp & He & Hm).
    exact (Hall path pat r Hp He Hm).
  - intros earlier entry Hs Hdeny (e & He & Hf). split.
    + rewrite getAuthorization_scan, Hs.
      pose proof (fold_applyMatch_snoc earlier entry initialAuthorization) as Hd.
      destruct Hd as (Hc & _). now rewrite Hc.
    + apply (Hsome e); [| exact Hf]. rewrite Hs. apply in_or_app. now left.
Qed.

(** *** Further properties of the authorization engine *)

Lemma matchingRules_nil shield path :
  existsb (fun entry => isMatch path (fst entry)) shield = false ->
  matchingRules shield path = [].
Proof.
  unfold matchingRules. induction shield as [| e shield IH]; [reflexivity |].
  simpl. intros H. apply orb_false_iff in H as (He & Hrest).
  rewrite He. now apply IH.
Qed.

Lemma scanMatches_app shield front back :
  scanMatches shield (front ++ back)%list =
  (scanMatches shield back ++ scanMatches shield front)%list.
Proof.
  unfold scanMatches. now rewrite rev_app_distr, flat_map_app.
Qed.

Lemma scanMatches_ext shield shield' paths :
  (forall path, In path paths ->
                matchingRules shield path = matchingRules shield' path) ->
  scanMatches shield paths = scanMatches shield' paths.
Proof.
  induction paths as [| path paths IH]; intros Hext; [reflexivity |].
  rewrite !scanMatches_cons, (Hext path (or_introl eq_refl)). f_equal.
  apply IH. intros p Hp. apply Hext. now right.
Qed.

Lemma ruleAccess_false rule :
  ruleAccess rule = false ->
  rule = RuleBoolean false \/ exists rsn, rule = RuleObject (JBool false) rsn.
Proof.
  destruct rule as [[|] | [| | [|] | | | |] rsn]; simpl; try discriminate;
    eauto.
Qed.

(** The decision after a run of matches that is not empty. *)
Lemma getAuthorization_decided shield paths :
  scanMatches shield paths <> [] ->
  exists path pat rule,
    In path paths /\ In (pat, rule) shield /\ isMatch path pat = true /\
    decidedBy (pat, rule) (getAuthorization shield paths).
Proof.
  intros Hne. destruct (exists_last Hne) as (l & [pat rule] & Hs).
  assert (Hin : In (pat, rule) (scanMatches shield paths))
    by (rewrite Hs; apply in_or_app; right; now left).
  apply In_scanMatches in Hin. destruct Hin as (path & Hp & He & Hm).
  exists path, pat, rule. repeat split; try assumption;
    rewrite getAuthorization_scan, Hs;
    apply (fold_applyMatch_snoc l (pat, rule) initialAuthorization).
Qed.

(** A denied decision has a reason. *)
Lemma getAuthorization_denied_reason shield paths :
  canAccess (getAuthorization shield paths) = false ->
  exists r, reason (getAuthorization shield paths) = Some r.
Proof.
  intros Hdeny. destruct (scanMatches shield paths) as [| e l] eqn:Hs.
  - rewrite getAuthorization_scan, Hs in Hdeny. discriminate.
  - assert (Hne : scanMatches shield paths <> []) by (rewrite Hs; discriminate).
    destruct (getAuthorization_decided _ _ Hne)
      as (path & pat & rule & _ & _ & _ & _ & Hr & _).
    eauto.
Qed.

(** X1. A denial always has a cause: when the engine denies access, some
    entry of the shield whose rule is [false] (as a plain boolean or as the
    [rule] field) matches one of the paths, and the decision carries its
    pattern as matcher and its reason, so that the reason is never [null]. *)
Theorem getAuthorization_denial_has_cause (shield : Shield) (paths : list string) :
  canAccess (getAuthorization shield paths) = false ->
  exists path pat rule,
    In path paths /\ In (pat, rule) shield /\ isMatch path pat = true /\
    (rule = RuleBoolean false \/
     exists rsn, rule = RuleObject (JBool false) rsn) /\
    matcher (getAuthorization shield paths) = Some pat /\
    reason (getAuthorization shield paths) =
      Some match rule with
           | RuleObject _ (Some r) => r
           | _ => ReasonString ("Matcher: " ++ pat)
           end.
Proof.
  intros Hdeny. destruct (scanMatches shield paths) as [| e l] eqn:Hs.
  - rewrite getAuthorization_scan, Hs in Hdeny. discriminate.
  - assert (Hne : scanMatches shield paths <> []) by (rewrite Hs; discriminate).
    destruct (getAuthorization_decided _ _ Hne)
      as (path & pat & rule & Hp & He & Hm & Hc & Hr & Hmt).
    exists path, pat, rule. simpl in Hc, Hr, Hmt. rewrite Hc in Hdeny.
    repeat split; try assumption. now apply ruleAccess_false.
Qed.

(** X2. The matcher of the decision is [null] exactly when no pattern of the
    shield matches any path; the reason is [null] exactly when the matcher
    is; and a matcher that is set is a key of the shield that matches one of
    the paths. *)
Theorem getAuthorization_matcher_sound (shield : Shield) (paths : list string) :
  (matcher (getAuthorization shield paths) = None <->
   forall path entry,
     In path paths -> In entry shield -> isMatch path (fst entry) = false) /\
  (reason (getAuthorization shield paths) = None <->
   matcher (getAuthorization shield paths) = None) /\
  (forall pat,
      matcher (getAuthorization shield paths) = Some pat ->
      exists path rule,
        In path paths /\ In (pat, rule) shield /\ isMatch path pat = true).
Proof.
  destruct (scanMatches shield paths) as [| e l] eqn:Hs.
  - assert (Hinit : getAuthorization shield paths = initialAuthorization)
      by (now rewrite getAuthorization_scan, Hs).
    rewrite Hinit. simpl. split; [| split].
    + split; [| reflexivity]. intros _ path entry Hp He.
      destruct (isMatch path (fst entry)) eqn:Hm; [| reflexivity].
      assert (Hin : In entry (scanMatches shield paths))
        by (apply In_scanMatches; eauto).
      rewrite Hs in Hin. destruct Hin.
    + tauto.
    + discriminate.
  - assert (Hne : scanMatches shield paths <> []) by (rewrite Hs; discriminate).
    destruct (getAuthorization_decided _ _ Hne)
      as (path & pat & rule & Hp & He & Hm & Hc & Hr & Hmt).
    simpl in Hr, Hmt. rewrite Hr, Hmt. split; [| split].
    + split; [discriminate |]. intros Hno.
      specialize (Hno path (pat, rule) Hp He). simpl in Hno. congruence.
    + split; discriminate.
    + intros pat' Heq. injection Heq as <-. eauto.
Qed.

(** X3. The decision on a concatenation of path lists is the scan of the
    front list continued from the decision on the back list; so when some
    pattern matches a path of the front list, access, reason and matcher are
    those of the front list alone. *)
Theorem getAuthorization_app (shield : Shield) (front back : list string) :
  getAuthorization shield (front ++ back)%list =
    pathsLoop shield front (List.length front) (getAuthorization shield back) /\
  (scanMatches shield front <> [] ->
   canAccess (getAuthorization shield (front ++ back)%list) =
     canAccess (getAuthorization shield front) /\
   reason (getAuthorization shield (front ++ back)%list) =
     reason (getAuthorization shield front) /\
   matcher (getAuthorization shield (front ++ back)%list) =
     matcher (getAuthorization shield front)).
Proof.
  split.
  - rewrite pathsLoop_firstn, firstn_all by lia.
    rewrite !getAuthorization_scan, scanMatches_app. apply fold_left_app.
  - intros Hne. destruct (exists_last Hne) as (l & e & Hs).
    rewrite !getAuthorization_scan, scanMatches_app, Hs, app_assoc.
    destruct (fold_applyMatch_snoc (scanMatches shield back ++ l) e
                initialAuthorization) as (H1 & H2 & H3).
    destruct (fold_applyMatch_snoc l e initialAuthorization)
      as (H1' & H2' & H3').
    now rewrite H1, H2, H3, H1', H2', H3'.
Qed.

(** X4. The paths that no pattern of the shield matches play no part: the
    decision is the same without them. *)
Theorem getAuthorization_unmatched_paths (shield : Shield) (paths : list string) :
  getAuthorization shield
    (filter (fun path =>
               existsb (fun entry => isMatch path (fst entry)) shield) paths) =
  getAuthorization shield paths.
Proof.
  rewrite !getAuthorization_scan. f_equal.
  induction paths as [| path paths IH]; [reflexivity |].
  cbn [filter].
  destruct (existsb (fun entry => isMatch path (fst entry)) shield) eqn:Hex.
  - now rewrite !scanMatches_cons, IH.
  - rewrite scanMatches_cons, (matchingRules_nil _ _ Hex), app_nil_r.
    exact IH.
Qed.

(** X5. The entries of the shield whose pattern matches none of the paths
    play no part: the decision is the same without them. *)
Theorem getAuthorization_unmatched_rules (shield : Shield) (paths : list string) :
  getAuthorization
    (filter (fun entry => existsb (fun path => isMatch path (fst entry)) paths)
       shield) paths =
  getAuthorization shield paths.
Proof.
  rewrite !getAuthorization_scan. f_equal. apply scanMatches_ext.
  intros path Hp. unfold matchingRules.
  induction shield as [| e shield IH]; [reflexivity |]. cbn [filter].
  destruct (existsb (fun path => isMatch path (fst e)) paths) eqn:Hex.
  - cbn [filter]. now rewrite IH.
  - rewrite IH. destruct (isMatch path (fst e)) eqn:Hm; [| reflexivity].
    assert (Ht : existsb (fun path => isMatch path (fst e)) paths = true)
      by (apply existsb_exists; eauto).
    congruence.
Qed.

Lemma filterTrees_app matches matches' :
  filterTrees (matches ++ matches')%list =
  (filterTrees matches ++ filterTrees matches')%list.
Proof.
  induction matches as [| [pat [b | rule rsn]] rest IH]; cbn [app filterTrees];
    [reflexivity | exact IH |].
  destruct (isBoolean rule); [exact IH | now rewrite IH].
Qed.

Lemma filterTrees_matchingRules shield path :
  filterTrees
    (matchingRules (filter (fun entry => isFilterRule (snd entry)) shield) path) =
  filterTrees (matchingRules shield path).
Proof.
  unfold matchingRules.
  induction shield as [| [pat [b | rule rsn]] shield IH]; [reflexivity | |];
    cbn [filter snd fst isFilterRule].
  - destruct (isMatch path pat); [cbn [filterTrees] |]; exact IH.
  - destruct (isBoolean rule) eqn:Hb; cbn [negb filter fst];
      destruct (isMatch path pat); cbn [filterTrees]; rewrite ?Hb;
      now rewrite ?IH.
Qed.

(** X17. The boolean rules play no part in the filter: the filter of the
    decision is the same when the shield keeps only the entries whose [rule]
    field is not a boolean. *)
Theorem getAuthorization_filter_ignores_booleans
  (shield : Shield) (paths : list string) :
  prismaFilter
    (getAuthorization
       (filter (fun entry => isFilterRule (snd entry)) shield) paths) =
  prismaFilter (getAuthorization shield paths).
Proof.
  rewrite !getAuthorization_scan, !fold_applyMatch_filter. f_equal.
  induction paths as [| path paths IH]; [reflexivity |].
  now rewrite !scanMatches_cons, !filterTrees_app, IH,
    filterTrees_matchingRules.
Qed.

End Engine.

(** *** A matcher and a merge to run the engine on *)

(** Modelled from the spec: [micromatch] is an imported library, it is not
    part of the repository. [globMatch] covers the glob patterns made of
    literal characters and [*], which stands for a run of characters other
    than [/]. *)
Fixpoint globMatch (path globPattern : string) {struct globPattern} : bool :=
  match globPattern with
  | EmptyString => (path =? "")%string
  | String c restPattern =>
      if (c =? "*")%char then
        (fix star (p : string) : bool :=
           globMatch p restPattern ||
           match p with
           | EmptyString => false
           | String d p' => if (d =? "/")%char then false else star p'
           end) path
      else
        match path with
        | EmptyString => false
        | String d p' => (c =? d)%char && globMatch p' restPattern
        end
  end.

(** Modelled from the spec: [lodash/merge] is an imported library, it is not
    part of the repository. [mergeValue] follows "recursively combine mapping
    keys": the keys of a source mapping are assigned into the destination, a
    mapping met on both sides is merged key by key, and any other value of the
    source replaces the one of the destination. *)
Fixpoint mergeValue (source destination : JValue) {struct source} : JValue :=
  match source with
  | JUndefined => destination
  | JObj sourceProps =>
      JObj
        ((fix assign (props : list (string * JValue))
              (acc : list (string * JValue)) : list (string * JValue) :=
            match props with
            | [] => acc
            | p :: rest =>
                match p with
                | (key, v) =>
                    assign rest (setProp key (mergeValue v (getProp key acc)) acc)
                end
            end) sourceProps
           match destination with JObj props => props | _ => [] end)
  | _ => source
  end.

(** Modelled from the spec: [merge(object, source1, source2)] of
    [lodash/merge]; the sources that are mappings are merged into [object],
    from left to right. *)
Definition deepMerge (object source1 source2 : JValue) : JValue :=
  let mergeSource source destination :=
    match source with
    | JObj _ => mergeValue source destination
    | _ => destination
    end in
  mergeSource source2 (mergeSource source1 object).

Lemma deepMerge_returnsObject : returnsObject deepMerge.
Proof.
  intros a b. unfold deepMerge.
  destruct b; try (destruct a; reflexivity); reflexivity.
Qed.

(** The example of section 8 of the specification: the rule on
    [/get/post/body] denies, the rule on [/get/post/*] allows, and the path
    listed first decides. *)
Definition exampleShield : Shield :=
  [ ("/get/post/body", RuleBoolean false); ("/get/post/*", RuleBoolean true) ].

Example getAuthorization_title_first :
  getAuthorization globMatch deepMerge exampleShield
    ["/get/post/title"; "/get/post/body"] =
  {| canAccess := true; reason := Some (ReasonString "Matcher: /get/post/*");
     prismaFilter := JNull; matcher := Some "/get/post/*" |}.
Proof. reflexivity. Qed.

(** With the two rules in the other order, the order of the paths alone
    changes the decision. *)
Definition orderShield : Shield :=
  [ ("/get/post/*", RuleBoolean true); ("/get/post/body", RuleBoolean false) ].

Example getAuthorization_body_first :
  getAuthorization globMatch deepMerge orderShield
    ["/get/post/body"; "/get/post/title"] =
  {| canAccess := false; reason := Some (ReasonString "Matcher: /get/post/body");
     prismaFilter := JNull; matcher := Some "/get/post/body" |}.
Proof. reflexivity. Qed.

Example getAuthorization_body_last :
  getAuthorization globMatch deepMerge orderShield
    ["/get/post/title"; "/get/post/body"] =
  {| canAccess := true; reason := Some (ReasonString "Matcher: /get/post/*");
     prismaFilter := JNull; matcher := Some "/get/post/*" |}.
Proof. reflexivity. Qed.

(** Two filter rules on different paths and a boolean rule that decides. *)
Definition filterShield : Shield :=
  [ ("/get/post/title", RuleBoolean false);
    ("/get/post/body",
       RuleObject (JObj [("published", JBool true)]) None);
    ("/get/post/author",
       RuleObject (JObj [("owner", JObj [("id", JNum 7)])])
                  (Some (ReasonString "owner only"))) ].

Definition filterPaths : list string :=
  ["/get/post/title"; "/get/post/body"; "/get/post/author"].

Example getAuthorization_filter_example :
  getAuthorization globMatch deepMerge filterShield filterPaths =
  {| canAccess := false;
     reason := Some (ReasonString "Matcher: /get/post/title");
     prismaFilter :=
       JObj [("owner", JObj [("id", JNum 7)]); ("published", JBool true)];
     matcher := Some "/get/post/title" |}.
Proof. reflexivity. Qed.

(** *** The properties at these examples *)

Lemma getAuthorization_last_match_wins_witness :
  matchingRules globMatch exampleShield "/get/post/title" <> [] /\
  decidedByLast (matchingRules globMatch exampleShield "/get/post/title")
    (getAuthorization globMatch deepMerge exampleShield
       ["/get/post/title"; "/get/post/body"]).
Proof.
  split; [discriminate |].
  apply (proj2 (proj2 (getAuthorization_last_match_wins globMatch deepMerge
                         exampleShield ["/get/post/title"; "/get/post/body"]))
           "/get/post/title" ["/get/post/body"] eq_refl).
  discriminate.
Defined.

Lemma getAuthorization_filter_accumulates_witness :
  prismaFilter (getAuthorization globMatch deepMerge filterShield filterPaths) =
  fold_left (mergeFilter deepMerge)
    [JObj [("owner", JObj [("id", JNum 7)])]; JObj [("published", JBool true)]]
    JNull.
Proof.
  exact (proj2 (proj2 (getAuthorization_filter_accumulates globMatch deepMerge
                         filterShield filterPaths))).
Defined.

Lemma getAuthorization_default_allow_witness :
  getAuthorization globMatch deepMerge exampleShield
    ["/list/user/email"; "/list/user/name"] =
  {| canAccess := true; reason := None; prismaFilter := JNull; matcher := None |}.
Proof.
  apply (proj1 (getAuthorization_default_allow globMatch deepMerge)).
  intros path entry Hp He. simpl in Hp, He.
  destruct Hp as [<- | [<- | []]]; destruct He as [<- | [<- | []]]; reflexivity.
Defined.

Lemma getAuthorization_filter_null_iff_witness :
  canAccess (getAuthorization globMatch deepMerge filterShield filterPaths)
    = false /\
  prismaFilter (getAuthorization globMatch deepMerge filterShield filterPaths)
    <> JNull.
Proof.
  apply (proj2 (proj2 (getAuthorization_filter_null_iff globMatch deepMerge
                         filterShield filterPaths deepMerge_returnsObject))
           [ ("/get/post/author",
                RuleObject (JObj [("owner", JObj [("id", JNum 7)])])
                           (Some (ReasonString "owner only")));
             ("/get/post/body",
                RuleObject (JObj [("published", JBool true)]) None) ]
           ("/get/post/title", RuleBoolean false)).
  - reflexivity.
  - reflexivity.
  - eexists. split; [left; reflexivity | reflexivity].
Defined.

Lemma getAuthorization_denial_has_cause_witness :
  exists path pat rule,
    In path ["/get/post/body"; "/get/post/title"] /\
    In (pat, rule) orderShield /\ globMatch path pat = true /\
    (rule = RuleBoolean false \/
     exists rsn, rule = RuleObject (JBool false) rsn) /\
    matcher (getAuthorization globMatch deepMerge orderShield
               ["/get/post/body"; "/get/post/title"]) = Some pat /\
    reason (getAuthorization globMatch deepMerge orderShield
              ["/get/post/body"; "/get/post/title"]) =
      Some match rule with
           | RuleObject _ (Some r) => r
           | _ => ReasonString ("Matcher: " ++ pat)
           end.
Proof.
  exact (getAuthorization_denial_has_cause globMatch deepMerge orderShield
           ["/get/post/body"; "/get/post/title"] eq_refl).
Defined.

End Shield.

(** ** The client ([PrismaAppSync], and its preview [_client.ts]) *)

Module Client.

Import Shield.

(** What the client throws: [new CustomError(message, { type })], or the
    [TypeError] of the language. *)
Inductive Exception : Type :=
| CustomError (message : string) (type : string)
| TypeError (message : string).

(** [defaultPagination?: number | false] *)
Inductive Pagination : Type :=
| PageSize (n : Z)
| NoPagination.

(** [PrismaAppSyncOptionsType]: every option may be left out. *)
Record PrismaAppSyncOptionsType : Type := {
  optConnectionString : option string;
  optSanitize : option bool;
  optDebug : option bool;
  optDefaultPagination : option Pagination;
  optMaxDepth : option Z
}.

Record Options : Type := {
  generatedConfig : JValue;
  connectionString : string;
  sanitize : bool;
  debug : bool;
  defaultPagination : Pagination;
  maxDepth : Z
}.

(** The variables of [process.env] the client reads and writes. *)
Record Env : Type := {
  DATABASE_URL : option string;
  PRISMA_APPSYNC_GENERATED_CONFIG : option string;
  PRISMA_APPSYNC_DEBUG : option string;
  PRISMA_APPSYNC_TESTING : option string
}.

Definition orDefault {A : Type} (o : option A) (d : A) : A :=
  match o with Some x => x | None => d end.

(** [String(process.env.DATABASE_URL)] *)
Definition stringOfEnv (v : option string) : string := orDefault v "undefined".

Section Constructor.

(** [JSON.parse], [None] when it throws. *)
Variable jsonParse : string -> option JValue.

(** [constructor(options?)]: the options of the instance and the environment
    it leaves, or the error thrown. The debug log and the creation of the
    Prisma client are left out. *)
Definition constructor (options : option PrismaAppSyncOptionsType) (env : Env)
  : Exception + Options * Env :=
  let opt {A : Type} (f : PrismaAppSyncOptionsType -> option A) : option A :=
    match options with Some o => f o | None => None end in
  let this_options :=
    {| generatedConfig := JObj [];
       connectionString :=
         orDefault (opt optConnectionString) (stringOfEnv (DATABASE_URL env));
       sanitize := orDefault (opt optSanitize) true;
       debug := orDefault (opt optDebug) true;
       defaultPagination := orDefault (opt optDefaultPagination) (PageSize 50);
       maxDepth := orDefault (opt optMaxDepth) 3 |} in
  let parsed :=
    match PRISMA_APPSYNC_GENERATED_CONFIG env with
    | None => Some (generatedConfig this_options)
    | Some text => jsonParse text
    end in
  match parsed with
  | None =>
      inl (CustomError
             "Issue parsing auto-injected environment variable `PRISMA_APPSYNC_GENERATED_CONFIG`."
             "INTERNAL_SERVER_ERROR")
  | Some config =>
      let this_options :=
        {| generatedConfig := config;
           connectionString := connectionString this_options;
           sanitize := sanitize this_options;
           debug := debug this_options;
           defaultPagination := defaultPagination this_options;
           maxDepth := maxDepth this_options |} in
      inr (this_options,
           {| DATABASE_URL :=
                match DATABASE_URL env with
                | None => Some (connectionString this_options)
                | Some url => Some url
                end;
              PRISMA_APPSYNC_GENERATED_CONFIG :=
                PRISMA_APPSYNC_GENERATED_CONFIG env;
              PRISMA_APPSYNC_DEBUG :=
                Some (if debug this_options then "true" else "false");
              PRISMA_APPSYNC_TESTING := PRISMA_APPSYNC_TESTING env |})
  end.

End Constructor.

(** *** The middleware that adds the Prisma filter of the shield *)

(** [params.args] of a Prisma query, an object. *)
Definition Args : Type := list (string * JValue).

Definition Middleware : Type := Args -> Exception + Args.

Section WhereFilter.

(** [v > 0] for a string, an array or an object [v]: the comparison of the
    language after conversion to a number. *)
Variable toNumberGtZero : JValue -> bool.

(** [v.length] *)
Definition lengthOf (v : JValue) : Exception + JValue :=
  match v with
  | JUndefined => inl (TypeError "Cannot read properties of undefined")
  | JNull => inl (TypeError "Cannot read properties of null")
  | JBool _ | JNum _ => inr JUndefined
  | JStr s => inr (JNum (Z.of_nat (String.length s)))
  | JArr items => inr (JNum (Z.of_nat (List.length items)))
  | JObj props => inr (getProp "length" props)
  end.

(** [v > 0] *)
Definition gtZero (v : JValue) : bool :=
  match v with
  | JUndefined | JNull => false
  | JBool b => b
  | JNum n => 0 <? n
  | JStr _ | JArr _ | JObj _ => toNumberGtZero v
  end.

(** The function handed to [prismaClient.$use], on [params.args]; [next] is
    called with the result. *)
Definition shieldMiddleware (prismaFilter : JValue) : Middleware :=
  fun args =>
    let where_ := getProp "where" args in
    if negb (isUndefined where_) then
      match lengthOf where_ with
      | inl e => inl e
      | inr len =>
          if gtZero len then
            inr (setProp "where"
                   (JObj [("AND", JArr [where_; prismaFilter])]) args)
          else inr (setProp "where" prismaFilter args)
      end
    else inr (setProp "where" prismaFilter args).

End WhereFilter.

(** *** [resolve] *)

(** [QueryParams.context] *)
Record Context : Type := {
  action : string;
  alias : string;
  model : option string
}.

(** The fields of [QueryParams] that [resolve] reads. *)
Record QueryParams : Type := {
  operation : string;
  context : Context;
  paths : list string;
  prismaArgs : Args
}.

(** An entry of [resolveParams.resolvers]: [false] disables the operation, a
    function resolves it. *)
Inductive Resolver : Type :=
| ResolverBoolean (b : bool)
| ResolverFunction (f : QueryParams -> Exception + JValue).

(** [resolveParams.resolvers], an object: its own entries, and the members it
    inherits from its prototype (those of [Object.prototype] for an object
    literal), which [resolvers[operation]] reaches as well. A member that is
    neither a boolean nor a function is not listed: [resolve] only asks
    whether [resolvers[operation]] is one or the other. *)
Record Resolvers : Type := {
  ownResolvers : list (string * Resolver);
  inheritedResolvers : list (string * Resolver)
}.

Fixpoint lookupResolver (name : string) (members : list (string * Resolver))
  : option Resolver :=
  match members with
  | [] => None
  | (key, r) :: rest =>
      if (key =? name)%string then Some r else lookupResolver name rest
  end.

(** [resolvers[operation]]: the own entry of that name, else the inherited
    member of that name. *)
Definition findResolver (operation : string) (resolvers : Resolvers)
  : option Resolver :=
  match lookupResolver operation (ownResolvers resolvers) with
  | Some r => Some r
  | None => lookupResolver operation (inheritedResolvers resolvers)
  end.

(** The members of [Object.prototype] that are functions. *)
Definition objectPrototypeFunctions : list string :=
  [ "constructor"; "__defineGetter__"; "__defineSetter__"; "hasOwnProperty";
    "__lookupGetter__"; "__lookupSetter__"; "isPrototypeOf";
    "propertyIsEnumerable"; "toString"; "valueOf"; "toLocaleString" ].

(** The object literal [{ ...entries }]: it inherits the members of
    [Object.prototype]; [builtin name] is what the member [name] does when
    [resolve] calls it with the query. *)
Definition objectLiteral
  (builtin : string -> QueryParams -> Exception + JValue)
  (entries : list (string * Resolver)) : Resolvers :=
  {| ownResolvers := entries;
     inheritedResolvers :=
       map (fun name => (name, ResolverFunction (builtin name)))
         objectPrototypeFunctions |}.

(** What [resolve] hands back: the parsed query (unit tests) or the value of a
    resolver. *)
Inductive Results : Type :=
| ResultsQueryParams (q : QueryParams)
| ResultsValue (v : JValue).

(** The promise [resolve] returns. *)
Inductive Outcome : Type :=
| Resolved (results : Results)
| Rejected (error : Exception).

(** The collaborators [resolve] calls, in the order it calls them. *)
Inductive Call : Type :=
| CallParseEvent
| CallGetDepth
| CallShield
| CallGetShieldAuthorization
| CallUse
| CallResolver (operation : string)
| CallQuery (name : string).

(** The Prisma client of the instance (its middlewares, in the order of
    their registration) and the calls made so far. *)
Record World : Type := {
  prismaClient : list Middleware;
  calls : list Call
}.

(** Computations of [resolve]: they read and extend the world, and return a
    value or throw. *)
Definition M (A : Type) : Type := World -> World * (Exception + A).

Definition ret {A : Type} (x : A) : M A := fun w => (w, inr x).

Definition throw {A : Type} (e : Exception) : M A := fun w => (w, inl e).

Definition bind {A B : Type} (m : M A) (k : A -> M B) : M B :=
  fun w =>
    match m w with
    | (w', inl e) => (w', inl e)
    | (w', inr x) => k x w'
    end.

Definition lift {A : Type} (r : Exception + A) : M A := fun w => (w, r).

Definition call (c : Call) : M unit :=
  fun w =>
    ({| prismaClient := prismaClient w; calls := (calls w ++ [c])%list |},
     inr tt).

(** [this.prismaClient.$use(middleware)] *)
Definition use (m : Middleware) : M unit :=
  fun w =>
    ({| prismaClient := (prismaClient w ++ [m])%list;
        calls := (calls w ++ [CallUse])%list |}, inr tt).

Definition getClient : M (list Middleware) := fun w => (w, inr (prismaClient w)).

Declare Scope resolve_scope.
Delimit Scope resolve_scope with resolve.
Notation "x <- m ;; k" := (bind m (fun x => k))
  (at level 61, m at next level, right associativity) : resolve_scope.
Notation "m ;; k" := (bind m (fun _ => k))
  (at level 61, right associativity) : resolve_scope.

(** A number in a template string. *)
Definition showNumber (n : Z) : string :=
  DecimalString.NilZero.string_of_int (Z.to_int n).

Record ResolveParams (Event : Type) : Type := {
  event : Event;
  resolvers : option Resolvers;
  shield : option (QueryParams -> Exception + Shield)
}.
Arguments event {Event} _.
Arguments resolvers {Event} _.
Arguments shield {Event} _.

Section Resolve.

Local Open Scope resolve_scope.

(** The modules [resolve] imports: the adapter, the guard, the inspector,
    the utilities and the resolver of the built-in queries. *)
Variable Event : Type.
Variable parseEvent : Event -> Options -> option Resolvers -> Exception + QueryParams.
Variable getDepth : list string -> Context -> Z.
Variable getShieldAuthorization : Shield -> list string -> Authorization.
Variable parseError : Exception -> Exception.
Variable isEmpty : option string -> bool.
Variable queries : string -> list Middleware -> QueryParams -> Exception + JValue.
Variable toNumberGtZero : JValue -> bool.

(** The [try] block of [resolve]; the debug logs and the hooks, which are
    commented out in the source, are left out. *)
Definition resolveTry (options : Options) (env : Env)
  (resolveParams : ResolveParams Event) : M Results :=
  call CallParseEvent ;;
  QueryParams <- lift (parseEvent (event resolveParams) options
                         (resolvers resolveParams)) ;;
  call CallGetDepth ;;
  let depth := getDepth (paths QueryParams) (context QueryParams) in
  (if depth >? maxDepth options
   then throw (CustomError
                 ("Query has depth of " ++ showNumber depth
                  ++ ", which exceeds max depth of "
                  ++ showNumber (maxDepth options) ++ ".")
                 "FORBIDDEN")
   else ret tt) ;;
  shield <- match shield resolveParams with
            | Some f => call CallShield ;; lift (f QueryParams)
            | None => ret []
            end ;;
  call CallGetShieldAuthorization ;;
  let shieldAuth := getShieldAuthorization shield (paths QueryParams) in
  (if negb (canAccess shieldAuth)
   then
     reason <- match reason shieldAuth with
               | Some (ReasonString s) => ret s
               | Some (ReasonFunction f) => ret (f tt)
               | None => throw (TypeError "shieldAuth.reason is not a function")
               end ;;
     throw (CustomError reason "FORBIDDEN")
   else ret tt) ;;
  (if truthy (prismaFilter shieldAuth)
   then use (shieldMiddleware toNumberGtZero (prismaFilter shieldAuth))
   else ret tt) ;;
  let resolver :=
    match resolvers resolveParams with
    | Some rs => findResolver (operation QueryParams) rs
    | None => None
    end in
  if match PRISMA_APPSYNC_TESTING env with
     | Some v => (v =? "true")%string
     | None => false
     end
  then ret (ResultsQueryParams QueryParams)
  else
    match resolver with
    | Some (ResolverBoolean false) =>
        throw (CustomError
                 ("Query resolver for " ++ operation QueryParams
                  ++ " is disabled.") "FORBIDDEN")
    | Some (ResolverFunction f) =>
        call (CallResolver (operation QueryParams)) ;;
        v <- lift (f QueryParams) ;;
        ret (ResultsValue v)
    | _ =>
        if negb (isEmpty (model (context QueryParams)))
        then
          let name := (action (context QueryParams) ++ "Query")%string in
          call (CallQuery name) ;;
          client <- getClient ;;
          v <- lift (queries name client QueryParams) ;;
          ret (ResultsValue v)
        else
          throw (CustomError
                   ("Query resolver for " ++ operation QueryParams
                    ++ " could not be found.") "INTERNAL_SERVER_ERROR")
    end.

(** [resolve(resolveParams)]: what is thrown in the [try] block is caught and
    returned as a rejection of [parseError(error)]. *)
Definition resolve (options : Options) (env : Env)
  (resolveParams : ResolveParams Event) (w : World) : World * Outcome :=
  match resolveTry options env resolveParams w with
  | (w', inr results) => (w', Resolved results)
  | (w', inl error) => (w', Rejected (parseError error))
  end.

End Resolve.

(** *** Properties of the where filter *)

Section WhereFilterFacts.

Variable toNumberGtZero : JValue -> bool.

(** No [where] in the arguments: the Prisma filter becomes the [where]. *)
Lemma shieldMiddleware_no_where prismaFilter args :
  getProp "where" args = JUndefined ->
  shieldMiddleware toNumberGtZero prismaFilter args =
  inr (setProp "where" prismaFilter args).
Proof. intros H. unfold shieldMiddleware. now rewrite H. Qed.

(** A [where] that is an object without a [length] property is replaced by
    the Prisma filter: [where.length] is [undefined], and [undefined > 0] is
    false. *)
Lemma shieldMiddleware_object_where prismaFilter args props :
  getProp "where" args = JObj props ->
  getProp "length" props = JUndefined ->
  shieldMiddleware toNumberGtZero prismaFilter args =
  inr (setProp "where" prismaFilter args).
Proof.
  intros Hw Hl. unfold shieldMiddleware. rewrite Hw. simpl. now rewrite Hl.
Qed.

(** A [where] that is a non-empty array is combined with the Prisma filter. *)
Lemma shieldMiddleware_array_where prismaFilter args item items :
  getProp "where" args = JArr (item :: items) ->
  shieldMiddleware toNumberGtZero prismaFilter args =
  inr (setProp "where"
         (JObj [("AND", JArr [JArr (item :: items); prismaFilter])]) args).
Proof.
  intros Hw. unfold shieldMiddleware. rewrite Hw.
  cbn [isUndefined negb lengthOf gtZero].
  now destruct (Z.ltb_spec 0 (Z.of_nat (List.length (item :: items))));
    [| simpl in *; lia].
Qed.

(** C3. On the arguments [{ where: { title: { startsWith: 'Hello' } } }] and
    the Prisma filter [{ authorId: 7 }] the middleware replaces the [where] of
    the caller by the Prisma filter: the result is not the [AND] of the two. *)
Theorem shieldMiddleware_replaces_caller_where :
  let where_ := JObj [("title", JObj [("startsWith", JStr "Hello")])] in
  let prismaFilter := JObj [("authorId", JNum 7)] in
  shieldMiddleware toNumberGtZero prismaFilter [("where", where_)] =
    inr [("where", prismaFilter)] /\
  shieldMiddleware toNumberGtZero prismaFilter [("where", where_)] <>
    inr [("where", JObj [("AND", JArr [where_; prismaFilter])])].
Proof. split; [reflexivity | discriminate]. Qed.

(** *** Further properties of the where filter *)

Lemma getProp_setProp_same key v props :
  getProp key (setProp key v props) = v.
Proof.
  induction props as [| [k w] rest IH]; simpl.
  - now rewrite String.eqb_refl.
  - destruct (k =? key)%string eqn:Hk; simpl; now rewrite Hk.
Qed.

Lemma getProp_setProp_other key key' v props :
  key' <> key -> getProp key' (setProp key v props) = getProp key' props.
Proof.
  intros Hne. induction props as [| [k w] rest IH]; simpl.
  - assert (H : (key =? key')%string = false)
      by (apply String.eqb_neq; congruence).
    now rewrite H.
  - destruct (k =? key)%string eqn:Hk; simpl.
    + apply String.eqb_eq in Hk as ->.
      assert (H : (key =? key')%string = false)
        by (apply String.eqb_neq; congruence).
      now rewrite H.
    + destruct (k =? key')%string; [reflexivity | exact IH].
Qed.

(** When the middleware returns, it has set [where] to the Prisma filter or
    to the [AND] of the former [where] and the Prisma filter. *)
Lemma shieldMiddleware_returns prismaFilter args args' :
  shieldMiddleware toNumberGtZero prismaFilter args = inr args' ->
  args' = setProp "where" prismaFilter args \/
  args' = setProp "where"
            (JObj [("AND", JArr [getProp "where" args; prismaFilter])]) args.
Proof.
  unfold shieldMiddleware.
  destruct (negb (isUndefined (getProp "where" args))).
  - destruct (lengthOf (getProp "where" args)) as [e | len];
      [discriminate |].
    destruct (gtZero toNumberGtZero len); intros H; injection H as <-; auto.
  - intros H; injection H as <-; auto.
Qed.

(** X6. Whenever the middleware hands arguments on to the query, their
    [where] is the Prisma filter of the shield, alone or in an [AND] with the
    former [where], and every other argument is as it was. *)
Theorem shieldMiddleware_enforces_filter prismaFilter args args' :
  shieldMiddleware toNumberGtZero prismaFilter args = inr args' ->
  (getProp "where" args' = prismaFilter \/
   getProp "where" args' =
     JObj [("AND", JArr [getProp "where" args; prismaFilter])]) /\
  (forall key, key <> "where" -> getProp key args' = getProp key args).
Proof.
  intros H. destruct (shieldMiddleware_returns _ _ _ H) as [-> | ->].
  - split; [left; apply getProp_setProp_same |].
    intros key Hk. now apply getProp_setProp_other.
  - split; [right; apply getProp_setProp_same |].
    intros key Hk. now apply getProp_setProp_other.
Qed.

(** X7. On arguments whose [where] is [null] the middleware throws a
    [TypeError] (it reads [length] of [null]); it returns when there is no
    [where], and when the [where] is a boolean, a number, a string, an array
    or an object without a [length] property. *)
Theorem shieldMiddleware_throws_on_null prismaFilter args :
  (getProp "where" args = JNull ->
   exists message,
     shieldMiddleware toNumberGtZero prismaFilter args =
       inl (TypeError message)) /\
  (getProp "where" args <> JNull ->
   (forall props,
       getProp "where" args = JObj props ->
       getProp "length" props = JUndefined) ->
   exists args',
     shieldMiddleware toNumberGtZero prismaFilter args = inr args').
Proof.
  unfold shieldMiddleware. split.
  - intros ->. simpl. eauto.
  - intros Hnull Hobj.
    destruct (getProp "where" args) as [| | b | n | text | items | props];
      cbn [isUndefined negb lengthOf gtZero]; try congruence;
      try (eexists; reflexivity).
    + destruct (0 <? Z.of_nat (String.length text)); eexists; reflexivity.
    + destruct (0 <? Z.of_nat (List.length items)); eexists; reflexivity.
    + rewrite (Hobj props eq_refl). eexists; reflexivity.
Qed.

(** X8. A shield middleware that runs after another one discards the filter
    of the first: when the first filter is an object without a [length]
    property, whatever the first left as [where] is replaced by the second
    filter alone. *)
Theorem shieldMiddleware_second_replaces_first props1 prismaFilter2 args args1 :
  getProp "length" props1 = JUndefined ->
  shieldMiddleware toNumberGtZero (JObj props1) args = inr args1 ->
  shieldMiddleware toNumberGtZero prismaFilter2 args1 =
    inr (setProp "where" prismaFilter2 args1) /\
  getProp "where" (setProp "where" prismaFilter2 args1) = prismaFilter2.
Proof.
  intros Hlen H1. split; [| apply getProp_setProp_same].
  destruct (shieldMiddleware_returns _ _ _ H1) as [-> | ->].
  - apply (shieldMiddleware_object_where _ _ props1);
      [apply getProp_setProp_same | exact Hlen].
  - eapply shieldMiddleware_object_where;
      [apply getProp_setProp_same | reflexivity].
Qed.

End WhereFilterFacts.

(** The cases of the end of [resolve]: the testing flag, the entry of the
    resolvers, the model and the result of the resolver or of the query. *)
Ltac dispatch_cases :=
  repeat
    (cbn [negb prismaClient calls];
     first
       [ reflexivity
       | progress (rewrite <- !app_assoc); reflexivity
       | match goal with
         | |- context [match PRISMA_APPSYNC_TESTING ?env with _ => _ end] =>
             destruct (PRISMA_APPSYNC_TESTING env) as [flag |];
             [destruct (flag =? "true")%string |]
         | |- context [match resolvers ?rp with _ => _ end] =>
             destruct (resolvers rp) as [table |]
         | |- context [findResolver ?op ?table] =>
             destruct (findResolver op table) as [[[|] | custom] |]
         | |- context [if negb ?c then _ else _] => destruct c
         | |- context [match ?f ?q with inl _ => _ | inr _ => _ end] =>
             destruct (f q)
         end ]).

(** *** Properties of the depth guard *)

Section ResolveFacts.

Variable Event : Type.
Variable parseEvent : Event -> Options -> option Resolvers -> Exception + QueryParams.
Variable getDepth : list string -> Context -> Z.
Variable getShieldAuthorization : Shield -> list string -> Authorization.
Variable parseError : Exception -> Exception.
Variable isEmpty : option string -> bool.
Variable queries : string -> list Middleware -> QueryParams -> Exception + JValue.
Variable toNumberGtZero : JValue -> bool.

(** Without a [maxDepth] option the instance allows a depth of 3. *)
Lemma constructor_default_maxDepth jsonParse options env this_options env' :
  constructor jsonParse options env = inr (this_options, env') ->
  maxDepth this_options =
  match options with
  | Some o => orDefault (optMaxDepth o) 3
  | None => 3
  end.
Proof.
  unfold constructor. intros H.
  destruct (match PRISMA_APPSYNC_GENERATED_CONFIG env with
            | Some text => jsonParse text | None => _ end);
    [| discriminate].
  injection H as <- _. now destruct options.
Qed.

(** C4. When the depth of the parsed query exceeds the [maxDepth] of the
    instance (3 unless the options of the constructor set it), [resolve]
    returns a rejection of the [FORBIDDEN] error, having called [parseEvent]
    and [getDepth] only: neither the shield nor the authorization is called,
    and nothing is registered on the Prisma client. *)
Theorem resolve_depth_exceeded
  jsonParse constructorOptions env0 options env1 env resolveParams w queryParams :
  constructor jsonParse constructorOptions env0 = inr (options, env1) ->
  parseEvent (event resolveParams) options (resolvers resolveParams)
    = inr queryParams ->
  getDepth (paths queryParams) (context queryParams) >
    match constructorOptions with
    | Some o => orDefault (optMaxDepth o) 3
    | None => 3
    end ->
  resolve Event parseEvent getDepth getShieldAuthorization parseError isEmpty
    queries toNumberGtZero options env resolveParams w =
  ({| prismaClient := prismaClient w;
      calls := (calls w ++ [CallParseEvent; CallGetDepth])%list |},
   Rejected
     (parseError
        (CustomError
           ("Query has depth of "
            ++ showNumber (getDepth (paths queryParams) (context queryParams))
            ++ ", which exceeds max depth of "
            ++ showNumber (maxDepth options) ++ ".")
           "FORBIDDEN"))).
Proof.
  intros Hnew Hparse Hdepth.
  rewrite <- (constructor_default_maxDepth _ _ _ _ _ Hnew) in Hdepth.
  unfold resolve, resolveTry, bind, call, lift.
  cbn [prismaClient calls]. rewrite Hparse.
  apply Z.gt_lt, Z.gtb_lt in Hdepth. rewrite Hdepth.
  unfold throw. now rewrite <- app_assoc.
Qed.

(** *** The course of [resolve] *)

Local Abbreviation run :=
  (resolve Event parseEvent getDepth getShieldAuthorization parseError isEmpty
     queries toNumberGtZero).
Local Abbreviation runTry :=
  (resolveTry Event parseEvent getDepth getShieldAuthorization isEmpty
     queries toNumberGtZero).

(** [typeof reason === 'string' ? reason : reason()] *)
Definition reasonText (r : Reason) : string :=
  match r with
  | ReasonString text => text
  | ReasonFunction f => f tt
  end.

(** The shield of a call: what [resolveParams.shield] returns, [{}] without
    it. *)
Definition shieldOf (resolveParams : ResolveParams Event)
  (queryParams : QueryParams) : Exception + Shield :=
  match shield resolveParams with
  | Some f => f queryParams
  | None => inr []
  end.

Definition shieldCalls (resolveParams : ResolveParams Event) : list Call :=
  match shield resolveParams with
  | Some _ => [CallShield]
  | None => []
  end.

(** The world after some more calls. *)
Definition afterCalls (more : list Call) (w : World) : World :=
  {| prismaClient := prismaClient w; calls := (calls w ++ more)%list |}.

(** The calls of the guards, from [parseEvent] to the authorization. *)
Definition guardCalls (resolveParams : ResolveParams Event) : list Call :=
  ([CallParseEvent; CallGetDepth] ++ shieldCalls resolveParams
   ++ [CallGetShieldAuthorization])%list.

(** The world once the guards have let the call through: the middleware of
    the Prisma filter is registered when there is a filter. *)
Definition afterGuards (resolveParams : ResolveParams Event)
  (prismaFilter : JValue) (w : World) : World :=
  if truthy prismaFilter then
    {| prismaClient :=
         (prismaClient w ++ [shieldMiddleware toNumberGtZero prismaFilter])%list;
       calls := (calls w ++ guardCalls resolveParams ++ [CallUse])%list |}
  else afterCalls (guardCalls resolveParams) w.

(** The end of the [try] block: the choice of what resolves the query. *)
Definition dispatch (env : Env) (resolveParams : ResolveParams Event)
  (queryParams : QueryParams) (w : World) : World * (Exception + Results) :=
  if match PRISMA_APPSYNC_TESTING env with
     | Some v => (v =? "true")%string
     | None => false
     end
  then (w, inr (ResultsQueryParams queryParams))
  else
    match match resolvers resolveParams with
          | Some rs => findResolver (operation queryParams) rs
          | None => None
          end with
    | Some (ResolverBoolean false) =>
        (w, inl (CustomError
                   ("Query resolver for " ++ operation queryParams
                    ++ " is disabled.") "FORBIDDEN"))
    | Some (ResolverFunction f) =>
        (afterCalls [CallResolver (operation queryParams)] w,
         match f queryParams with
         | inl e => inl e
         | inr v => inr (ResultsValue v)
         end)
    | _ =>
        if negb (isEmpty (model (context queryParams)))
        then
          (afterCalls
             [CallQuery (action (context queryParams) ++ "Query")%string] w,
           match queries (action (context queryParams) ++ "Query")%string
                   (prismaClient w) queryParams with
           | inl e => inl e
           | inr v => inr (ResultsValue v)
           end)
        else
          (w, inl (CustomError
                     ("Query resolver for " ++ operation queryParams
                      ++ " could not be found.") "INTERNAL_SERVER_ERROR"))
    end.

(** The [try] block, case by case. *)
Lemma resolveTry_cases options env resolveParams w :
  runTry options env resolveParams w =
  match parseEvent (event resolveParams) options (resolvers resolveParams) with
  | inl e => (afterCalls [CallParseEvent] w, inl e)
  | inr queryParams =>
      let depth := getDepth (paths queryParams) (context queryParams) in
      if depth >? maxDepth options then
        (afterCalls [CallParseEvent; CallGetDepth] w,
         inl (CustomError
                ("Query has depth of " ++ showNumber depth
                 ++ ", which exceeds max depth of "
                 ++ showNumber (maxDepth options) ++ ".") "FORBIDDEN"))
      else
        match shieldOf resolveParams queryParams with
        | inl e =>
            (afterCalls ([CallParseEvent; CallGetDepth]
                         ++ shieldCalls resolveParams) w, inl e)
        | inr shield =>
            let shieldAuth :=
              getShieldAuthorization shield (paths queryParams) in
            if canAccess shieldAuth then
              dispatch env resolveParams queryParams
                (afterGuards resolveParams (prismaFilter shieldAuth) w)
            else
              (afterCalls (guardCalls resolveParams) w,
               inl match reason shieldAuth with
                   | Some r => CustomError (reasonText r) "FORBIDDEN"
                   | None => TypeError "shieldAuth.reason is not a function"
                   end)
        end
  end.
Proof.
  unfold resolveTry, bind, call, lift, ret, throw, use, getClient, shieldOf,
    dispatch, afterGuards, guardCalls, shieldCalls, afterCalls.
  cbn [prismaClient calls].
  destruct (parseEvent (event resolveParams) options (resolvers resolveParams))
    as [e | queryParams]; [reflexivity |].
  cbv zeta.
  destruct (getDepth (paths queryParams) (context queryParams)
            >? maxDepth options);
    [now rewrite <- app_assoc |].
  destruct (shield resolveParams) as [f |]; cbn [prismaClient calls];
    [destruct (f queryParams) as [e | shield];
     [now rewrite <- !app_assoc | cbn [prismaClient calls]] |];
    match goal with
    | |- context [getShieldAuthorization ?s ?ps] =>
        destruct (getShieldAuthorization s ps) as [access rsn prismaFilter m]
    end;
    cbn [canAccess reason Shield.prismaFilter];
    (destruct access; cbn [negb];
     [ destruct (truthy prismaFilter); cbn [prismaClient calls];
       rewrite <- !app_assoc; cbn [app]; dispatch_cases
     | destruct rsn as [[text | g] |]; cbn [prismaClient calls reasonText];
       now rewrite <- !app_assoc ]).
Qed.

Lemma resolve_cases options env resolveParams w :
  run options env resolveParams w =
  match runTry options env resolveParams w with
  | (w', inr results) => (w', Resolved results)
  | (w', inl error) => (w', Rejected (parseError error))
  end.
Proof. reflexivity. Qed.

(** The guards let the call through: the event is parsed, the depth is
    within the maximum, the shield is obtained and it allows the access. *)
Definition passesGuards (options : Options)
  (resolveParams : ResolveParams Event) (queryParams : QueryParams)
  (shield : Shield) : Prop :=
  parseEvent (event resolveParams) options (resolvers resolveParams)
    = inr queryParams /\
  getDepth (paths queryParams) (context queryParams) <= maxDepth options /\
  shieldOf resolveParams queryParams = inr shield /\
  canAccess (getShieldAuthorization shield (paths queryParams)) = true.

Lemma depth_within depth limit : depth <= limit -> (depth >? limit) = false.
Proof. intros H. rewrite Z.gtb_ltb. now apply Z.ltb_ge. Qed.

Lemma depth_within_inv depth limit : (depth >? limit) = false -> depth <= limit.
Proof. rewrite Z.gtb_ltb. now apply Z.ltb_ge. Qed.

Lemma resolveTry_passes options env resolveParams w queryParams shield :
  passesGuards options resolveParams queryParams shield ->
  runTry options env resolveParams w =
  dispatch env resolveParams queryParams
    (afterGuards resolveParams
       (prismaFilter (getShieldAuthorization shield (paths queryParams))) w).
Proof.
  intros (Hparse & Hdepth & Hshield & Haccess).
  rewrite resolveTry_cases, Hparse. cbv zeta.
  now rewrite (depth_within _ _ Hdepth), Hshield, Haccess.
Qed.

Lemma dispatch_client env resolveParams queryParams w :
  prismaClient (fst (dispatch env resolveParams queryParams w)) = prismaClient w.
Proof. unfold dispatch, afterCalls. dispatch_cases. Qed.

(** A call that runs a resolver or a query. *)
Definition isExecution (c : Call) : bool :=
  match c with
  | CallResolver _ | CallQuery _ => true
  | _ => false
  end.

(** X9. An exception of [parseEvent] or of the shield function is not
    thrown by [resolve]: it comes back as a rejection of [parseError] of it,
    and nothing that follows in [resolve] is called. *)
Theorem resolve_collaborator_errors options env resolveParams w :
  (forall e,
      parseEvent (event resolveParams) options (resolvers resolveParams)
        = inl e ->
      run options env resolveParams w =
        (afterCalls [CallParseEvent] w, Rejected (parseError e))) /\
  (forall queryParams f e,
      parseEvent (event resolveParams) options (resolvers resolveParams)
        = inr queryParams ->
      getDepth (paths queryParams) (context queryParams) <= maxDepth options ->
      shield resolveParams = Some f -> f queryParams = inl e ->
      run options env resolveParams w =
        (afterCalls [CallParseEvent; CallGetDepth; CallShield] w,
         Rejected (parseError e))).
Proof.
  split.
  - intros e Hparse. now rewrite resolve_cases, resolveTry_cases, Hparse.
  - intros queryParams f e Hparse Hdepth Hshield He.
    rewrite resolve_cases, resolveTry_cases, Hparse. cbv zeta.
    rewrite (depth_within _ _ Hdepth). unfold shieldOf, shieldCalls.
    now rewrite Hshield, He.
Qed.

(** X10. When the authorization denies the access, [resolve] returns a
    rejection of the [FORBIDDEN] error whose message is the reason of the
    decision (a [TypeError] when the decision has no reason); no middleware
    is registered, even when the decision has a filter, and neither a
    resolver nor a query is called. *)
Theorem resolve_access_denied options env resolveParams w queryParams shield :
  parseEvent (event resolveParams) options (resolvers resolveParams)
    = inr queryParams ->
  getDepth (paths queryParams) (context queryParams) <= maxDepth options ->
  shieldOf resolveParams queryParams = inr shield ->
  canAccess (getShieldAuthorization shield (paths queryParams)) = false ->
  run options env resolveParams w =
    ({| prismaClient := prismaClient w;
        calls := (calls w ++ [CallParseEvent; CallGetDepth]
                  ++ shieldCalls resolveParams
                  ++ [CallGetShieldAuthorization])%list |},
     Rejected
       (parseError
          match reason (getShieldAuthorization shield (paths queryParams)) with
          | Some (ReasonString text) => CustomError text "FORBIDDEN"
          | Some (ReasonFunction f) => CustomError (f tt) "FORBIDDEN"
          | None => TypeError "shieldAuth.reason is not a function"
          end)) /\
  existsb isExecution ([CallParseEvent; CallGetDepth]
                       ++ shieldCalls resolveParams
                       ++ [CallGetShieldAuthorization]) = false.
Proof.
  intros Hparse Hdepth Hshield Hdeny. split.
  - rewrite resolve_cases, resolveTry_cases, Hparse. cbv zeta.
    rewrite (depth_within _ _ Hdepth), Hshield, Hdeny.
    unfold afterCalls, guardCalls.
    now destruct (reason (getShieldAuthorization shield (paths queryParams)))
      as [[text | f] |].
  - unfold shieldCalls. now destruct (Client.shield resolveParams).
Qed.

(** X11. [resolve] calls a resolver or a query only for a call that the
    guards let through: the event was parsed, its depth is within the
    maximum, the shield was obtained and the authorization allows the
    access. *)
Theorem resolve_guards_before_execution
  options env resolveParams client w' outcome :
  run options env resolveParams {| prismaClient := client; calls := [] |}
    = (w', outcome) ->
  existsb isExecution (calls w') = true ->
  exists queryParams shield,
    passesGuards options resolveParams queryParams shield.
Proof.
  rewrite resolve_cases, resolveTry_cases. unfold passesGuards.
  destruct (parseEvent (event resolveParams) options (resolvers resolveParams))
    as [e | queryParams].
  - intros H. injection H as <- _. discriminate.
  - cbv zeta.
    destruct (getDepth (paths queryParams) (context queryParams)
              >? maxDepth options) eqn:Hdepth.
    + intros H. injection H as <- _. discriminate.
    + apply depth_within_inv in Hdepth.
      destruct (shieldOf resolveParams queryParams) as [e | shield] eqn:Hs.
      * intros H. injection H as <- _. unfold shieldCalls.
        destruct (Client.shield resolveParams); discriminate.
      * destruct (canAccess (getShieldAuthorization shield (paths queryParams)))
          eqn:Hacc.
        -- intros _ _. exists queryParams, shield. auto.
        -- intros H. injection H as <- _. unfold guardCalls, shieldCalls.
           destruct (Client.shield resolveParams); discriminate.
Qed.

(** X12. [resolve] never removes a middleware from the Prisma client of the
    instance, and adds at most one: the middleware of the Prisma filter, and
    only for a call that the guards let through with a filter. The
    middlewares of the former calls stay registered. *)
Theorem resolve_client_only_grows options env resolveParams w w' outcome :
  run options env resolveParams w = (w', outcome) ->
  prismaClient w' = prismaClient w \/
  exists queryParams shield,
    passesGuards options resolveParams queryParams shield /\
    truthy (prismaFilter (getShieldAuthorization shield (paths queryParams)))
      = true /\
    prismaClient w' =
      (prismaClient w
       ++ [shieldMiddleware toNumberGtZero
             (prismaFilter
                (getShieldAuthorization shield (paths queryParams)))])%list.
Proof.
  rewrite resolve_cases, resolveTry_cases. unfold passesGuards.
  destruct (parseEvent (event resolveParams) options (resolvers resolveParams))
    as [e | queryParams].
  - intros H. injection H as <- _. now left.
  - cbv zeta.
    destruct (getDepth (paths queryParams) (context queryParams)
              >? maxDepth options) eqn:Hdepth.
    + intros H. injection H as <- _. now left.
    + apply depth_within_inv in Hdepth.
      destruct (shieldOf resolveParams queryParams) as [e | shield] eqn:Hs.
      * intros H. injection H as <- _. now left.
      * destruct (canAccess (getShieldAuthorization shield (paths queryParams)))
          eqn:Hacc.
        -- pose proof (dispatch_client env resolveParams queryParams
                         (afterGuards resolveParams
                            (prismaFilter
                               (getShieldAuthorization shield
                                  (paths queryParams))) w)) as Hc.
           destruct (dispatch env resolveParams queryParams _)
             as [w2 [e | results]]; simpl in Hc;
             intros H; injection H as <- _; rewrite Hc; unfold afterGuards;
             (destruct (truthy (prismaFilter
                          (getShieldAuthorization shield (paths queryParams))))
                eqn:Hf; [right; exists queryParams, shield; auto | now left]).
        -- intros H. injection H as <- _. now left.
Qed.

(** [process.env.PRISMA_APPSYNC_TESTING === 'true'] *)
Definition isTesting (env : Env) : bool :=
  match PRISMA_APPSYNC_TESTING env with
  | Some v => (v =? "true")%string
  | None => false
  end.

(** [resolveParams.resolvers[operation]], when there are resolvers. *)
Definition resolverOf (resolveParams : ResolveParams Event)
  (queryParams : QueryParams) : option Resolver :=
  match resolvers resolveParams with
  | Some rs => findResolver (operation queryParams) rs
  | None => None
  end.

(** X13. For a call that the guards let through, outside the unit tests,
    when [resolvers[operation]] is neither [false] nor a function (there are
    no resolvers, or the resolvers have no member of that name, own or
    inherited, or the member is [true]), the built-in query [<action>Query]
    of a call on a model runs on the Prisma client with all the middlewares
    registered so far, those of the former calls first and the one of this
    call last; its exception comes back as a rejection of [parseError] of
    it. *)
Theorem resolve_builtin_query
  options env resolveParams w queryParams shield :
  passesGuards options resolveParams queryParams shield ->
  isTesting env = false ->
  (resolverOf resolveParams queryParams = None \/
   resolverOf resolveParams queryParams = Some (ResolverBoolean true)) ->
  isEmpty (model (context queryParams)) = false ->
  let prismaFilter :=
    prismaFilter (getShieldAuthorization shield (paths queryParams)) in
  let name := (action (context queryParams) ++ "Query")%string in
  run options env resolveParams w =
    (afterCalls [CallQuery name] (afterGuards resolveParams prismaFilter w),
     match queries name
             (prismaClient w
              ++ if truthy prismaFilter
                 then [shieldMiddleware toNumberGtZero prismaFilter]
                 else [])%list queryParams with
     | inl e => Rejected (parseError e)
     | inr v => Resolved (ResultsValue v)
     end).
Proof.
  intros Hpass Htest Hres Hmodel prismaFilter name.
  rewrite resolve_cases, (resolveTry_passes _ _ _ _ _ _ Hpass).
  unfold dispatch. fold (isTesting env). rewrite Htest.
  fold (resolverOf resolveParams queryParams). fold prismaFilter name.
  rewrite Hmodel. cbn [negb].
  assert (Hclient : prismaClient (afterGuards resolveParams prismaFilter w) =
                    (prismaClient w
                     ++ if truthy prismaFilter
                        then [shieldMiddleware toNumberGtZero prismaFilter]
                        else [])%list).
  { unfold afterGuards, afterCalls. destruct (truthy prismaFilter);
      cbn [prismaClient]; [reflexivity | now rewrite app_nil_r]. }
  rewrite Hclient.
  destruct Hres as [-> | ->];
    now destruct (queries name _ queryParams).
Qed.

(** X14. For a call that the guards let through, outside the unit tests,
    an operation whose resolver is [false] is rejected with a [FORBIDDEN]
    error; no query is called, but the middleware of the Prisma filter is
    already registered. *)
Theorem resolve_disabled_resolver
  options env resolveParams w queryParams shield :
  passesGuards options resolveParams queryParams shield ->
  isTesting env = false ->
  resolverOf resolveParams queryParams = Some (ResolverBoolean false) ->
  run options env resolveParams w =
    (afterGuards resolveParams
       (prismaFilter (getShieldAuthorization shield (paths queryParams))) w,
     Rejected
       (parseError
          (CustomError
             ("Query resolver for " ++ operation queryParams ++ " is disabled.")
             "FORBIDDEN"))).
Proof.
  intros Hpass Htest Hres.
  rewrite resolve_cases, (resolveTry_passes _ _ _ _ _ _ Hpass).
  unfold dispatch. fold (isTesting env). rewrite Htest.
  fold (resolverOf resolveParams queryParams). now rewrite Hres.
Qed.

(** X15. For a call that the guards let through, outside the unit tests, a
    resolver of the operation that is a function resolves the call in place
    of the built-in query, which is not called; its exception comes back as a
    rejection of [parseError] of it. *)
Theorem resolve_custom_resolver
  options env resolveParams w queryParams shield f :
  passesGuards options resolveParams queryParams shield ->
  isTesting env = false ->
  resolverOf resolveParams queryParams = Some (ResolverFunction f) ->
  run options env resolveParams w =
    (afterCalls [CallResolver (operation queryParams)]
       (afterGuards resolveParams
          (prismaFilter (getShieldAuthorization shield (paths queryParams))) w),
     match f queryParams with
     | inl e => Rejected (parseError e)
     | inr v => Resolved (ResultsValue v)
     end).
Proof.
  intros Hpass Htest Hres.
  rewrite resolve_cases, (resolveTry_passes _ _ _ _ _ _ Hpass).
  unfold dispatch. fold (isTesting env). rewrite Htest.
  fold (resolverOf resolveParams queryParams). rewrite Hres.
  now destruct (f queryParams).
Qed.

(** X16. In the unit tests ([PRISMA_APPSYNC_TESTING] is ['true'])
    [resolve] calls neither a resolver nor a query, whatever the call: it
    returns the parsed query when the guards let the call through, a
    rejection otherwise. *)
Theorem resolve_testing_never_executes
  options env resolveParams client w' outcome :
  isTesting env = true ->
  run options env resolveParams {| prismaClient := client; calls := [] |}
    = (w', outcome) ->
  existsb isExecution (calls w') = false /\
  (forall queryParams shield,
      passesGuards options resolveParams queryParams shield ->
      outcome = Resolved (ResultsQueryParams queryParams)) /\
  ((forall queryParams shield,
       ~ passesGuards options resolveParams queryParams shield) ->
   exists e, outcome = Rejected e).
Proof.
  intros Htest Hrun. split; [| split].
  - destruct (existsb isExecution (calls w')) eqn:Hex; [| reflexivity].
    exfalso. revert Hrun Hex.
    rewrite resolve_cases, resolveTry_cases.
    destruct (parseEvent (event resolveParams) options
                (resolvers resolveParams)) as [e | queryParams].
    + intros H. injection H as <- _. discriminate.
    + cbv zeta.
      destruct (getDepth (paths queryParams) (context queryParams)
                >? maxDepth options).
      * intros H. injection H as <- _. discriminate.
      * destruct (shieldOf resolveParams queryParams) as [e | shield].
        -- intros H. injection H as <- _. unfold shieldCalls.
           destruct (Client.shield resolveParams); discriminate.
        -- destruct (canAccess
                       (getShieldAuthorization shield (paths queryParams))).
           ++ unfold dispatch. fold (isTesting env). rewrite Htest.
              intros H. injection H as <- _.
              unfold afterGuards, afterCalls, guardCalls, shieldCalls.
              destruct (truthy _); destruct (Client.shield resolveParams);
                discriminate.
           ++ intros H. injection H as <- _. unfold guardCalls, shieldCalls.
              destruct (Client.shield resolveParams); discriminate.
  - intros queryParams shield Hpass. revert Hrun.
    rewrite resolve_cases, (resolveTry_passes _ _ _ _ _ _ Hpass).
    unfold dispatch. fold (isTesting env). rewrite Htest.
    intros H. now injection H as _ <-.
  - intros Hnone. revert Hrun. rewrite resolve_cases, resolveTry_cases.
    destruct (parseEvent (event resolveParams) options
                (resolvers resolveParams)) as [e | queryParams] eqn:Hparse.
    + intros H. injection H as _ <-. eauto.
    + cbv zeta.
      destruct (getDepth (paths queryParams) (context queryParams)
                >? maxDepth options) eqn:Hdepth.
      * intros H. injection H as _ <-. eauto.
      * apply depth_within_inv in Hdepth.
        destruct (shieldOf resolveParams queryParams) as [e | shield] eqn:Hs.
        -- intros H. injection H as _ <-. eauto.
        -- destruct (canAccess
                       (getShieldAuthorization shield (paths queryParams)))
             eqn:Hacc.
           ++ exfalso. apply (Hnone queryParams shield).
              unfold passesGuards. auto.
           ++ intros H. injection H as _ <-. eauto.
Qed.

End ResolveFacts.

(** *** Properties of the constructor *)

Section ConstructorFacts.

Variable jsonParse : string -> option JValue.

(** The constructor fails exactly when the variable
    [PRISMA_APPSYNC_GENERATED_CONFIG] is set to a text that [JSON.parse]
    rejects, and then with an [INTERNAL_SERVER_ERROR]; the options given never
    make it fail. *)
Theorem constructor_fails_iff_bad_config options env :
  ((exists e, constructor jsonParse options env = inl e) <->
   exists text,
     PRISMA_APPSYNC_GENERATED_CONFIG env = Some text /\
     jsonParse text = None) /\
  (forall e,
      constructor jsonParse options env = inl e ->
      exists message, e = CustomError message "INTERNAL_SERVER_ERROR").
Proof.
  unfold constructor.
  destruct (PRISMA_APPSYNC_GENERATED_CONFIG env) as [text |].
  - destruct (jsonParse text) as [config |] eqn:Hparse.
    + split; [split |].
      * intros (e & H). discriminate.
      * intros (text' & Heq & Hnone). injection Heq as <-. congruence.
      * intros e H. discriminate.
    + split; [split |].
      * intros _. eauto.
      * intros _. eauto.
      * intros e H. injection H as <-. eauto.
  - split; [split |].
    + intros (e & H). discriminate.
    + intros (text & H & _). discriminate.
    + intros e H. discriminate.
Qed.

(** X18. A constructor that succeeds leaves [DATABASE_URL] set: to its
    former value when it had one, to the connection string of the instance
    otherwise, which itself is the option given or else the former
    [DATABASE_URL], the text ['undefined'] when neither is there. It sets
    [PRISMA_APPSYNC_DEBUG] to the debug option as a text and leaves the other
    variables as they were. *)
Theorem constructor_environment options env this_options env' :
  constructor jsonParse options env = inr (this_options, env') ->
  DATABASE_URL env' =
    Some match DATABASE_URL env with
         | Some url => url
         | None => connectionString this_options
         end /\
  connectionString this_options =
    match match options with
          | Some o => optConnectionString o
          | None => None
          end, DATABASE_URL env with
    | Some given, _ => given
    | None, Some url => url
    | None, None => "undefined"
    end /\
  PRISMA_APPSYNC_DEBUG env' =
    Some (if debug this_options then "true" else "false") /\
  PRISMA_APPSYNC_GENERATED_CONFIG env' = PRISMA_APPSYNC_GENERATED_CONFIG env /\
  PRISMA_APPSYNC_TESTING env' = PRISMA_APPSYNC_TESTING env.
Proof.
  unfold constructor. intros H.
  destruct (match PRISMA_APPSYNC_GENERATED_CONFIG env with
            | Some text => jsonParse text | None => _ end);
    [| discriminate].
  injection H as <- <-. cbn.
  destruct options as [[[c |] ? ? ? ?] |]; cbn;
    destruct (DATABASE_URL env); cbn; auto.
Qed.

End ConstructorFacts.

End Client.

(** ** The preview client ([_client.ts]) *)

Module Preview.

Import Shield Client.

(** The fields of [ResolverQuery] that [resolve] reads. *)
Record ResolverQuery : Type := {
  queryAction : string;
  queryPaths : list string
}.

Definition ShieldFunction : Type := ResolverQuery -> Exception + Shield.

(** What the promise of [resolve] settles to: the results ([None] is
    [undefined]) or the exception thrown. *)
Inductive Results : Type :=
| ResultsQuery (q : ResolverQuery)
| ResultsValue (v : JValue).

Inductive Outcome : Type :=
| Fulfilled (results : option Results)
| Rejected (error : Exception).

(** The collaborators [resolve] calls, in the order it calls them. *)
Inductive Call : Type :=
| CallParseEvent
| CallShield
| CallUnauthorizedError (reason : string)
| CallUse
| CallQuery (name : string).

Section Instance.

Variable Event : Type.
Variable Hooks : Type.

(** [PrismaAppSyncOptions] of the preview: no generated configuration. *)
Record PrismaAppSyncOptions : Type := {
  connectionString : string;
  sanitize : bool;
  debug : bool;
  defaultPagination : Pagination;
  maxDepth : Z
}.

(** The fields of the instance; [None] is [null] or [undefined]. *)
Record PrismaAppSync : Type := {
  options : PrismaAppSyncOptions;
  event : option Event;
  resolverQuery : option ResolverQuery;
  resolvers : option Resolvers;
  shield : option ShieldFunction;
  hooks : option Hooks;
  isFirstResolve : bool;
  prismaClient : list Middleware
}.

Record ResolveParams : Type := {
  paramEvent : Event;
  paramShield : option ShieldFunction;
  paramHooks : option Hooks
}.

(** The instance and the calls made so far. *)
Record World : Type := {
  this : PrismaAppSync;
  calls : list Call
}.

(** [constructor(options)]: every option may be left out. *)
Definition constructor (given : PrismaAppSyncOptionsType)
  (databaseUrl : option string) : PrismaAppSync :=
  {| options :=
       {| connectionString :=
            orDefault (optConnectionString given) (stringOfEnv databaseUrl);
          sanitize := orDefault (optSanitize given) true;
          debug := orDefault (optDebug given) true;
          defaultPagination :=
            orDefault (optDefaultPagination given) (PageSize 50);
          maxDepth := orDefault (optMaxDepth given) 3 |};
     event := None; resolverQuery := None; resolvers := None;
     shield := None; hooks := None;
     isFirstResolve := true;
     prismaClient := [] |}.

(** [micromatch.isMatch] and [merge] of lodash, as for [getAuthorization];
    the adapter, the errors and the queries, which the client imports; and
    [process.env.JEST_WORKER_ID]. *)
Variable isMatch : string -> string -> bool.
Variable merge : JValue -> JValue -> JValue -> JValue.
Variable parseEvent : Event -> option Resolvers -> Exception + ResolverQuery.
Variable unauthorizedError : string -> option Exception.
Variable queries :
  string -> list Middleware -> ResolverQuery -> Exception + JValue.
Variable toNumberGtZero : JValue -> bool.
Variable JEST_WORKER_ID : option string.

(** The instance after the first lines of [resolve]: the shield and the
    hooks are read on the first call only, and the event is kept. *)
Definition received (resolveParams : ResolveParams) (i : PrismaAppSync)
  : PrismaAppSync :=
  {| options := options i;
     event := Some (paramEvent resolveParams);
     resolverQuery := resolverQuery i;
     resolvers := resolvers i;
     shield := if isFirstResolve i then paramShield resolveParams else shield i;
     hooks := if isFirstResolve i then paramHooks resolveParams else hooks i;
     isFirstResolve := false;
     prismaClient := prismaClient i |}.

Definition setResolverQuery (q : ResolverQuery) (i : PrismaAppSync)
  : PrismaAppSync :=
  {| options := options i; event := event i; resolverQuery := Some q;
     resolvers := resolvers i; shield := shield i; hooks := hooks i;
     isFirstResolve := isFirstResolve i; prismaClient := prismaClient i |}.

(** [this.prismaClient.$use(middleware)] *)
Definition use (m : Middleware) (i : PrismaAppSync) : PrismaAppSync :=
  {| options := options i; event := event i;
     resolverQuery := resolverQuery i; resolvers := resolvers i;
     shield := shield i; hooks := hooks i;
     isFirstResolve := isFirstResolve i;
     prismaClient := (prismaClient i ++ [m])%list |}.

(** [resolve(resolveParams)]; there is no [try] block, what is thrown
    rejects the promise as it is. *)
Definition resolve (resolveParams : ResolveParams) (w : World)
  : World * Outcome :=
  let i := received resolveParams (this w) in
  let log := (calls w ++ [CallParseEvent])%list in
  match parseEvent (paramEvent resolveParams) (resolvers i) with
  | inl e => ({| this := i; calls := log |}, Rejected e)
  | inr q =>
      let i := setResolverQuery q i in
      match shield i with
      | None =>
          ({| this := i; calls := log |},
           Rejected (TypeError "this.shield is not a function"))
      | Some f =>
          let log := (log ++ [CallShield])%list in
          match f q with
          | inl e => ({| this := i; calls := log |}, Rejected e)
          | inr shield =>
              let authorization :=
                getAuthorization isMatch merge shield (queryPaths q) in
              if negb (canAccess authorization) then
                match reason authorization with
                | None =>
                    ({| this := i; calls := log |},
                     Rejected
                       (TypeError "authorization.reason is not a function"))
                | Some r =>
                    let text :=
                      match r with
                      | ReasonString text => text
                      | ReasonFunction g => g tt
                      end in
                    let log := (log ++ [CallUnauthorizedError text])%list in
                    match unauthorizedError text with
                    | Some e => ({| this := i; calls := log |}, Rejected e)
                    | None => ({| this := i; calls := log |}, Fulfilled None)
                    end
                end
              else
                let '(i, log) :=
                  if truthy (prismaFilter authorization)
                  then (use (shieldMiddleware toNumberGtZero
                               (prismaFilter authorization)) i,
                        (log ++ [CallUse])%list)
                  else (i, log) in
                if match JEST_WORKER_ID with
                   | Some id => negb (id =? "")%string
                   | None => false
                   end
                then ({| this := i; calls := log |},
                      Fulfilled (Some (ResultsQuery q)))
                else
                  let name := (queryAction q ++ "Query")%string in
                  let log := (log ++ [CallQuery name])%list in
                  match queries name (prismaClient i) q with
                  | inl e => ({| this := i; calls := log |}, Rejected e)
                  | inr v =>
                      ({| this := i; calls := log |},
                       Fulfilled (Some (ResultsValue v)))
                  end
          end
      end
  end.

(** *** Properties of the preview client *)

(** The shield the call uses: the one of the parameters on the first call,
    the one the instance holds afterwards. *)
Definition shieldInUse (resolveParams : ResolveParams) (i : PrismaAppSync)
  : option ShieldFunction :=
  if isFirstResolve i then paramShield resolveParams else shield i.

(** [!!process.env.JEST_WORKER_ID] *)
Definition underJest : bool :=
  match JEST_WORKER_ID with
  | Some id => negb (id =? "")%string
  | None => false
  end.

(** [resolve] from the call of the shield on. *)
Definition afterShield (f : ShieldFunction) (q : ResolverQuery)
  (i : PrismaAppSync) (log : list Call) : World * Outcome :=
  match f q with
  | inl e => ({| this := i; calls := (log ++ [CallShield])%list |}, Rejected e)
  | inr shield =>
      let authorization :=
        getAuthorization isMatch merge shield (queryPaths q) in
      if canAccess authorization then
        let i' :=
          if truthy (prismaFilter authorization)
          then use (shieldMiddleware toNumberGtZero
                      (prismaFilter authorization)) i
          else i in
        let log' :=
          (log ++ [CallShield]
           ++ if truthy (prismaFilter authorization) then [CallUse] else [])%list in
        if underJest
        then ({| this := i'; calls := log' |}, Fulfilled (Some (ResultsQuery q)))
        else
          ({| this := i';
              calls := (log' ++ [CallQuery (queryAction q ++ "Query")%string])%list |},
           match queries (queryAction q ++ "Query")%string (prismaClient i') q with
           | inl e => Rejected e
           | inr v => Fulfilled (Some (ResultsValue v))
           end)
      else
        match reason authorization with
        | None =>
            ({| this := i; calls := (log ++ [CallShield])%list |},
             Rejected (TypeError "authorization.reason is not a function"))
        | Some r =>
            let text := match r with
                        | ReasonString text => text
                        | ReasonFunction g => g tt
                        end in
            ({| this := i;
                calls := (log ++ [CallShield; CallUnauthorizedError text])%list |},
             match unauthorizedError text with
             | Some e => Rejected e
             | None => Fulfilled None
             end)
        end
  end.

(** [resolve], case by case. *)
Lemma preview_resolve_cases resolveParams w :
  resolve resolveParams w =
  match parseEvent (paramEvent resolveParams) (resolvers (this w)) with
  | inl e =>
      ({| this := received resolveParams (this w);
          calls := (calls w ++ [CallParseEvent])%list |}, Rejected e)
  | inr q =>
      match shieldInUse resolveParams (this w) with
      | None =>
          ({| this := setResolverQuery q (received resolveParams (this w));
              calls := (calls w ++ [CallParseEvent])%list |},
           Rejected (TypeError "this.shield is not a function"))
      | Some f =>
          afterShield f q
            (setResolverQuery q (received resolveParams (this w)))
            (calls w ++ [CallParseEvent])%list
      end
  end.
Proof.
  unfold resolve, shieldInUse, afterShield, underJest. cbv zeta.
  cbn [resolvers shield setResolverQuery received].
  destruct (parseEvent _ _) as [e | q]; [reflexivity |].
  destruct (if isFirstResolve (this w) then _ else _) as [f |];
    [| reflexivity].
  destruct (f q) as [e | rules]; [reflexivity |].
  destruct (canAccess _); cbn [negb].
  - destruct (truthy _);
      destruct (match JEST_WORKER_ID with Some _ => _ | None => _ end);
      cbn [prismaClient use]; rewrite <- ?app_assoc; cbn [app];
      rewrite ?app_nil_r; try reflexivity;
      destruct (queries _ _ q); reflexivity.
  - destruct (reason _) as [r |]; [| reflexivity].
    rewrite <- ?app_assoc. cbn [app].
    destruct (unauthorizedError _); reflexivity.
Qed.

Lemma afterShield_instance f q i log :
  isFirstResolve (this (fst (afterShield f q i log))) = isFirstResolve i /\
  shield (this (fst (afterShield f q i log))) = shield i /\
  hooks (this (fst (afterShield f q i log))) = hooks i.
Proof.
  unfold afterShield. cbv zeta. destruct (f q) as [e | rules]; [cbn; auto |].
  destruct (canAccess _).
  - destruct (truthy _); destruct underJest; cbn; auto.
  - destruct (reason _); cbn; auto.
Qed.

(** Whatever [resolve] does, the instance it leaves has read its
    parameters and is no longer on its first call. *)
Lemma resolve_instance resolveParams w :
  isFirstResolve (this (fst (resolve resolveParams w))) = false /\
  shield (this (fst (resolve resolveParams w))) =
    shieldInUse resolveParams (this w) /\
  hooks (this (fst (resolve resolveParams w))) =
    (if isFirstResolve (this w) then paramHooks resolveParams
     else hooks (this w)).
Proof.
  rewrite preview_resolve_cases.
  destruct (parseEvent _ _) as [e | q]; [cbn; auto |].
  destruct (shieldInUse resolveParams (this w)) as [f |] eqn:Hs.
  - destruct (afterShield_instance f q
                (setResolverQuery q (received resolveParams (this w)))
                (calls w ++ [CallParseEvent])%list) as (H1 & H2 & H3).
    rewrite H1, H2, H3. cbn. auto.
  - cbn. auto.
Qed.

(** X19. The shield and the hooks are read on the first call of [resolve]
    only: after a first call, whatever its outcome, a second call leaves the
    shield of the first call in the instance and ignores its own. *)
Theorem resolve_shield_read_once resolveParams1 resolveParams2 w :
  isFirstResolve (this w) = true ->
  shield (this (fst (resolve resolveParams1 w))) = paramShield resolveParams1 /\
  shield (this (fst (resolve resolveParams2 (fst (resolve resolveParams1 w))))) =
    paramShield resolveParams1 /\
  shieldInUse resolveParams2 (this (fst (resolve resolveParams1 w))) =
    paramShield resolveParams1.
Proof.
  intros Hfirst.
  destruct (resolve_instance resolveParams1 w) as (Hf1 & Hs1 & _).
  destruct (resolve_instance resolveParams2 (fst (resolve resolveParams1 w)))
    as (_ & Hs2 & _).
  unfold shieldInUse in *. rewrite Hfirst in Hs1. rewrite Hf1 in Hs2.
  rewrite Hf1. rewrite Hs2, Hs1. auto.
Qed.

(** X20. Without a shield in use every call whose event parses is rejected
    with a [TypeError] ([this.shield] is [null] and is called); no query is
    called. *)
Theorem resolve_without_shield resolveParams w q :
  shieldInUse resolveParams (this w) = None ->
  parseEvent (paramEvent resolveParams) (resolvers (this w)) = inr q ->
  resolve resolveParams w =
    ({| this := setResolverQuery q (received resolveParams (this w));
        calls := (calls w ++ [CallParseEvent])%list |},
     Rejected (TypeError "this.shield is not a function")).
Proof.
  intros Hshield Hparse. now rewrite preview_resolve_cases, Hparse, Hshield.
Qed.

(** X21. When the authorization denies the access, [resolve] builds the
    [UnauthorizedError] of the reason of the decision, which is never [null],
    and returns: the promise is fulfilled with [undefined] (rejected only when
    that constructor throws), no middleware is registered and no query is
    called. *)
Theorem preview_access_denied resolveParams w q f shield :
  shieldInUse resolveParams (this w) = Some f ->
  parseEvent (paramEvent resolveParams) (resolvers (this w)) = inr q ->
  f q = inr shield ->
  canAccess (getAuthorization isMatch merge shield (queryPaths q)) = false ->
  exists r,
    reason (getAuthorization isMatch merge shield (queryPaths q)) = Some r /\
    let text := match r with
                | ReasonString text => text
                | ReasonFunction g => g tt
                end in
    resolve resolveParams w =
      ({| this := setResolverQuery q (received resolveParams (this w));
          calls := (calls w ++ [CallParseEvent; CallShield;
                                CallUnauthorizedError text])%list |},
       match unauthorizedError text with
       | Some e => Rejected e
       | None => Fulfilled None
       end).
Proof.
  intros Hshield Hparse Hf Hdeny.
  destruct (getAuthorization_denied_reason isMatch merge _ _ Hdeny)
    as (r & Hr).
  exists r. split; [exact Hr |]. cbv zeta.
  rewrite preview_resolve_cases, Hparse, Hshield. unfold afterShield.
  rewrite Hf. cbv zeta. rewrite Hdeny, Hr. now rewrite <- app_assoc.
Qed.

(** X22. When the authorization allows the access, the middleware of the
    Prisma filter is registered when there is a filter, and the query
    [<action>Query] runs on the Prisma client with the middlewares of the
    former calls and this one; under Jest the parsed query is returned and no
    query runs. *)
Theorem preview_access_allowed resolveParams w q f shield :
  shieldInUse resolveParams (this w) = Some f ->
  parseEvent (paramEvent resolveParams) (resolvers (this w)) = inr q ->
  f q = inr shield ->
  canAccess (getAuthorization isMatch merge shield (queryPaths q)) = true ->
  let prismaFilter :=
    prismaFilter (getAuthorization isMatch merge shield (queryPaths q)) in
  let i := setResolverQuery q (received resolveParams (this w)) in
  let name := (queryAction q ++ "Query")%string in
  resolve resolveParams w =
    ({| this :=
          if truthy prismaFilter
          then use (shieldMiddleware toNumberGtZero prismaFilter) i else i;
        calls :=
          (calls w ++ [CallParseEvent; CallShield]
           ++ (if truthy prismaFilter then [CallUse] else [])
           ++ (if underJest then [] else [CallQuery name]))%list |},
     if underJest then Fulfilled (Some (ResultsQuery q))
     else
       match queries name
               (prismaClient (this w)
                ++ if truthy prismaFilter
                   then [shieldMiddleware toNumberGtZero prismaFilter]
                   else [])%list q with
       | inl e => Rejected e
       | inr v => Fulfilled (Some (ResultsValue v))
       end).
Proof.
  intros Hshield Hparse Hf Hallow prismaFilter i name.
  subst i name prismaFilter.
  rewrite preview_resolve_cases, Hparse, Hshield. unfold afterShield.
  rewrite Hf. cbv zeta. rewrite Hallow.
  destruct underJest;
    destruct (truthy (Shield.prismaFilter
                (getAuthorization isMatch merge shield (queryPaths q))));
    cbn [prismaClient use setResolverQuery received];
    rewrite <- ?app_assoc, ?app_nil_r; reflexivity.
Qed.

End Instance.

End Preview.

(** ** The adapter: argument normalizer and path generator

    Modelled from the spec: [adapter.ts] is not among the sources of the
    repository at hand, only its declarations ([adapter.d.ts]) and its unit
    tests ([adapter.spec.ts]) are. The definitions of this module follow
    sections 4.2 and 4.3 of the specification, and are run on the inputs of
    the unit tests below. *)

Module Adapter.

Import Client.

(** The actions; [actionName] gives them as the client writes them. *)
Inductive Action : Type :=
| Get | List | Count
| Create | CreateMany | Update | UpdateMany | Upsert | Delete | DeleteMany.

Definition actionName (a : Action) : string :=
  match a with
  | Get => "get" | List => "list" | Count => "count"
  | Create => "create" | CreateMany => "createMany"
  | Update => "update" | UpdateMany => "updateMany" | Upsert => "upsert"
  | Delete => "delete" | DeleteMany => "deleteMany"
  end.

(** The mutating actions. *)
Definition isWriteAction (a : Action) : bool :=
  match a with
  | Get | List | Count => false
  | _ => true
  end.

(** The mutations on several records. *)
Definition isBatchAction (a : Action) : bool :=
  match a with
  | CreateMany | UpdateMany | DeleteMany => true
  | _ => false
  end.

(** Modelled from the spec: the read action of the result of a mutation in
    [getPaths] of [adapter.ts], the list action for a mutation on several
    records, the singular one otherwise. *)
Definition resultAction (a : Action) : Action :=
  if isBatchAction a then List else Get.

(** *** Strings *)

Definition lowerChar (c : ascii) : ascii :=
  let n := nat_of_ascii c in
  if ((65 <=? n) && (n <=? 90))%nat then ascii_of_nat (n + 32) else c.

Fixpoint toLowerCase (s : string) : string :=
  match s with
  | EmptyString => EmptyString
  | String c s' => String (lowerChar c) (toLowerCase s')
  end.

(** [s.split('/')] *)
Fixpoint splitPath (s : string) : list string :=
  match s with
  | EmptyString => [EmptyString]
  | String c s' =>
      if (c =? "/")%char then EmptyString :: splitPath s'
      else
        match splitPath s' with
        | segment :: segments => String c segment :: segments
        | [] => [String c EmptyString]
        end
  end.

(** [segments.join('/')] *)
Definition joinPath (segments : list string) : string :=
  String.concat "/" segments.

(** *** The select tree

    A select object is a sequence of fields in the order of their first
    request, each with the select of its own fields: [SField key sub rest] is
    the field [key] followed by the fields [rest]; the field is selected as
    [true] when [sub] is empty, as [{ select: sub }] otherwise. *)
Inductive Select : Type :=
| SNil
| SField (key : string) (sub : Select) (rest : Select).

Fixpoint keys (t : Select) : list string :=
  match t with
  | SNil => []
  | SField key _ rest => key :: keys rest
  end.

(** The select under the field [key], when the field is there. *)
Fixpoint find (key : string) (t : Select) : option Select :=
  match t with
  | SNil => None
  | SField k sub rest => if (k =? key)%string then Some sub else find key rest
  end.

(** Modelled from the spec: the construction of [select] in [adapter.ts], one
    requested path at a time; a field is set when its path is first met and
    the paths under it go to its own select. *)
Fixpoint insert (path : list string) (t : Select) {struct path} : Select :=
  match path with
  | [] => t
  | key :: path' =>
      (fix upd (t : Select) : Select :=
         match t with
         | SNil => SField key (insert path' SNil) SNil
         | SField k sub rest =>
             if (k =? key)%string then SField k (insert path' sub) rest
             else SField k sub (upd rest)
         end) t
  end.

Definition buildTree (paths : list (list string)) : Select :=
  fold_left (fun t path => insert path t) paths SNil.

(** The sentinel of the type name is not a field. *)
Definition notTypename (entry : string) : bool :=
  negb (entry =? "__typename")%string.

(** The requested fields, without the sentinel. *)
Definition requested (selectionSetList : list string) : list string :=
  filter notTypename selectionSetList.

(** Modelled from the spec: the [select] that [getArgs] of [adapter.ts] builds
    from the requested-fields list, the sentinel left out. *)
Definition parseSelectionList (selectionSetList : list string) : Select :=
  buildTree (map splitPath (requested selectionSetList)).

(** The select tree as a Prisma value. *)
Fixpoint selectValue (t : Select) : list (string * JValue) :=
  match t with
  | SNil => []
  | SField key sub rest =>
      (key, match sub with
            | SNil => JBool true
            | _ => JObj [("select", JObj (selectValue sub))]
            end) :: selectValue rest
  end.

(** The paths from the root to the fields selected as [true]. *)
Fixpoint leaves (t : Select) : list (list string) :=
  match t with
  | SNil => []
  | SField key sub rest =>
      (match sub with
       | SNil => [[key]]
       | _ => map (cons key) (leaves sub)
       end ++ leaves rest)%list
  end.

(** The select tree back as a requested-fields list. *)
Definition flattenSelect (t : Select) : list string :=
  map joinPath (leaves t).

(** Modelled from the spec: [getFields] of [adapter.ts], the first-level
    fields of a requested-fields list. *)
Definition getFields (selectionSetList : list string) : list string :=
  filter (fun entry => (List.length (splitPath entry) =? 1)%nat)
    (requested selectionSetList).

(** *** [getArgs] *)

(** The errors of section 7 the adapter raises. *)
Inductive AdapterError : Type :=
| MALFORMED_ARGUMENT (message : string).

(** The arguments of the call, as received; an entry of [orderBy] is an
    object of directions keyed by field. *)
Record RawArguments : Type := {
  rawWhere : option JValue;
  rawData : option JValue;
  rawOrderBy : option (list (list (string * string)));
  rawSkip : option JValue;
  rawTake : option JValue;
  rawSkipDuplicates : option bool;
  selectionSetList : option (list string)
}.

Definition noArguments : RawArguments :=
  {| rawWhere := None; rawData := None; rawOrderBy := None; rawSkip := None;
     rawTake := None; rawSkipDuplicates := None; selectionSetList := None |}.

(** The canonical query description; a key that is not populated is absent. *)
Record QueryArgs : Type := {
  select : option Select;
  where_ : option JValue;
  data : option JValue;
  orderBy : option (list (string * string));
  skip : option Z;
  take : option Z;
  skipDuplicates : option bool
}.

(** Modelled from the spec: the normalization of [orderBy] in [getArgs] of
    [adapter.ts]; an ordering entry carries exactly one pair, and its direction
    is put in lower case. *)
Definition parseOrder (entry : list (string * string))
  : AdapterError + string * string :=
  match entry with
  | [(field, direction)] => inr (field, toLowerCase direction)
  | _ => inl (MALFORMED_ARGUMENT "orderBy")
  end.

Fixpoint parseOrderBy (entries : list (list (string * string)))
  : AdapterError + list (string * string) :=
  match entries with
  | [] => inr []
  | entry :: rest =>
      match parseOrder entry with
      | inl e => inl e
      | inr order =>
          match parseOrderBy rest with
          | inl e => inl e
          | inr orders => inr (order :: orders)
          end
      end
  end.

(** Modelled from the spec: the coercion of [skip] and [take], numbers or
    numeric strings, in [getArgs] of [adapter.ts]. *)
Definition toInteger (name : string) (v : JValue) : AdapterError + Z :=
  match v with
  | JNum n => inr n
  | JStr s =>
      match DecimalString.NilZero.int_of_string s with
      | Some n => inr (Z.of_int n)
      | None => inl (MALFORMED_ARGUMENT name)
      end
  | _ => inl (MALFORMED_ARGUMENT name)
  end.

(** Applying a fallible conversion to an argument that may be absent. *)
Definition optionally {A B : Type} (f : A -> AdapterError + B) (o : option A)
  : AdapterError + option B :=
  match o with
  | None => inr None
  | Some x =>
      match f x with
      | inl e => inl e
      | inr y => inr (Some y)
      end
  end.

(** The default pagination applies to the list action, when it is a number. *)
Definition pageSize (action : Action) (defaultPagination : Pagination)
  : option Z :=
  match action, defaultPagination with
  | List, PageSize n => Some n
  | _, _ => None
  end.

(** [x ?? d] *)
Definition orElse (x : option Z) (d : Z) : Z :=
  match x with Some v => v | None => d end.

(** Modelled from the spec: [getArgs] of [adapter.ts] (section 4.2): the
    arguments pass through, [orderBy], [skip] and [take] are normalized, the
    requested fields become [select], and for the list action a numeric
    default pagination gives [skip ?? 0] and [take ?? default]. *)
Definition getArgs (action : Action) (_arguments : RawArguments)
  (defaultPagination : Pagination) : AdapterError + QueryArgs :=
  match optionally parseOrderBy (rawOrderBy _arguments) with
  | inl e => inl e
  | inr orderBy =>
      match optionally (toInteger "skip") (rawSkip _arguments) with
      | inl e => inl e
      | inr skip =>
          match optionally (toInteger "take") (rawTake _arguments) with
          | inl e => inl e
          | inr take =>
              inr {| select :=
                       option_map parseSelectionList
                         (selectionSetList _arguments);
                     where_ := rawWhere _arguments;
                     data := rawData _arguments;
                     orderBy := orderBy;
                     skip :=
                       match pageSize action defaultPagination with
                       | Some _ => Some (orElse skip 0)
                       | None => skip
                       end;
                     take :=
                       match pageSize action defaultPagination with
                       | Some n => Some (orElse take n)
                       | None => take
                       end;
                     skipDuplicates := rawSkipDuplicates _arguments |}
          end
      end
  end.

(** *** [getPaths] *)

(** Modelled from the spec: the walk of the payload in [getPaths] of
    [adapter.ts] (section 4.3): a scalar field gives its own path, the object
    under [connect] is walked under the path of the relation field, and the
    records of a batch are walked in turn. *)
Fixpoint dataPaths (prefix : list string) (v : JValue) {struct v}
  : list (list string) :=
  match v with
  | JObj props =>
      (fix fields (props : list (string * JValue)) : list (list string) :=
         match props with
         | [] => []
         | p :: rest =>
             match p with
             | (key, v') =>
                 ((if (key =? "connect")%string then dataPaths prefix v'
                   else dataPaths (prefix ++ [key])%list v')
                  ++ fields rest)%list
             end
         end) props
  | JArr items =>
      (fix records (items : list JValue) : list (list string) :=
         match items with
         | [] => []
         | item :: rest => (dataPaths prefix item ++ records rest)%list
         end) items
  | _ => [prefix]
  end.

(** Modelled from the spec: the path strings of [adapter.ts],
    [/<action>/<model>/<field>[/<subfield>...]], in lower case as the unit
    tests expect them. *)
Definition pathString (action : Action) (model : string)
  (segments : list string) : string :=
  toLowerCase ("/" ++ actionName action ++ "/" ++ model ++ "/"
               ++ joinPath segments).

Definition writePaths (action : Action) (model : string) (payload : JValue)
  : list string :=
  map (pathString action model) (dataPaths [] payload).

Definition readPaths (action : Action) (model : string) (t : Select)
  : list string :=
  map (pathString action model) (leaves t).

(** Modelled from the spec: [getPaths] of [adapter.ts] (section 4.3): for a
    read action the read-paths of [select] under the action; for a write
    action the write-paths of [data] under the action, then the read-paths of
    [select] under the read action of the result. *)
Definition getPaths (action : Action) (model : string) (args : QueryArgs)
  : list string :=
  let ofData :=
    match data args with
    | Some payload => writePaths action model payload
    | None => []
    end in
  let ofSelect (readAction : Action) :=
    match select args with
    | Some t => readPaths readAction model t
    | None => []
    end in
  if isWriteAction action then (ofData ++ ofSelect (resultAction action))%list
  else ofSelect action.

(** *** The unit tests of [adapter.spec.ts] *)

Definition nestedSelection : list string :=
  [ "__typename"; "title"; "comment"; "comment/content"; "comment/author";
    "comment/author/email"; "comment/author/username"; "comment/author/badges";
    "comment/author/badges/label"; "comment/author/badges/owners";
    "comment/author/badges/owners/email" ].

Definition connectAuthor (username : string) : JValue :=
  JObj [ ("title", JStr "New title");
         ("author", JObj [("connect", JObj [("username", JStr username)])]) ].

Example getFields_first_level :
  getFields
    [ "__typename"; "title"; "description"; "author"; "author/username";
      "author/email"; "author/comments"; "author/comments/text";
      "author/comments/likes"; "author/comments/likes/user";
      "author/comments/likes/user/username" ] =
  ["title"; "description"; "author"].
Proof. reflexivity. Qed.

Example getArgs_nested_selection :
  match
    getArgs List
      {| rawWhere := None; rawData := None; rawOrderBy := None;
         rawSkip := None; rawTake := None; rawSkipDuplicates := None;
         selectionSetList :=
           Some [ "title"; "createdAt"; "comments"; "comments/post";
                  "comments/author"; "comments/author/email" ] |}
      NoPagination
  with
  | inr {| select := Some t; where_ := None; data := None; orderBy := None;
           skip := None; take := None; skipDuplicates := None |} =>
      selectValue t =
      [ ("title", JBool true); ("createdAt", JBool true);
        ("comments",
           JObj [("select",
                    JObj [ ("post", JBool true);
                           ("author",
                              JObj [("select",
                                       JObj [("email", JBool true)])]) ])]) ]
  | _ => False
  end.
Proof. reflexivity. Qed.

Example getArgs_orderBy :
  getArgs List
    {| rawWhere := None; rawData := None;
       rawOrderBy := Some [[("title", "ASC")]; [("postedAt", "DESC")]];
       rawSkip := None; rawTake := None; rawSkipDuplicates := None;
       selectionSetList := None |}
    NoPagination =
  inr {| select := None; where_ := None; data := None;
         orderBy := Some [("title", "asc"); ("postedAt", "desc")];
         skip := None; take := None; skipDuplicates := None |}.
Proof. reflexivity. Qed.

Example getArgs_orderBy_wrong_format :
  getArgs List
    {| rawWhere := None; rawData := None;
       rawOrderBy :=
         Some [[("title", "ASC"); ("content", "DESC")]; [("postedAt", "DESC")]];
       rawSkip := None; rawTake := None; rawSkipDuplicates := None;
       selectionSetList := None |}
    NoPagination =
  inl (MALFORMED_ARGUMENT "orderBy").
Proof. reflexivity. Qed.

Example getArgs_skip :
  getArgs List
    {| rawWhere := None; rawData := None; rawOrderBy := None;
       rawSkip := Some (JStr "5"); rawTake := None; rawSkipDuplicates := None;
       selectionSetList := None |}
    NoPagination =
  inr {| select := None; where_ := None; data := None; orderBy := None;
         skip := Some 5; take := None; skipDuplicates := None |}.
Proof. reflexivity. Qed.

Example getArgs_take_with_default_pagination :
  getArgs List
    {| rawWhere := None; rawData := None; rawOrderBy := None;
       rawSkip := None; rawTake := Some (JStr "3"); rawSkipDuplicates := None;
       selectionSetList := None |}
    (PageSize 50) =
  inr {| select := None; where_ := None; data := None; orderBy := None;
         skip := Some 0; take := Some 3; skipDuplicates := None |}.
Proof. reflexivity. Qed.

Example getArgs_default_pagination :
  getArgs List noArguments (PageSize 50) =
  inr {| select := None; where_ := None; data := None; orderBy := None;
         skip := Some 0; take := Some 50; skipDuplicates := None |}.
Proof. reflexivity. Qed.

(** The arguments of the path tests, normalized. *)
Definition argsOf (action : Action) (payload : option JValue) : QueryArgs :=
  match
    getArgs action
      {| rawWhere := None; rawData := payload; rawOrderBy := None;
         rawSkip := None; rawTake := None; rawSkipDuplicates := None;
         selectionSetList := Some nestedSelection |}
      NoPagination
  with
  | inr args => args
  | inl _ =>
      {| select := None; where_ := None; data := None; orderBy := None;
         skip := None; take := None; skipDuplicates := None |}
  end.

Example getPaths_nested_get :
  getPaths Get "Post" (argsOf Get None) =
  [ "/get/post/title"; "/get/post/comment/content";
    "/get/post/comment/author/email"; "/get/post/comment/author/username";
    "/get/post/comment/author/badges/label";
    "/get/post/comment/author/badges/owners/email" ].
Proof. reflexivity. Qed.

Example getPaths_nested_update :
  getPaths Update "Post" (argsOf Update (Some (connectAuthor "other user"))) =
  [ "/update/post/title"; "/update/post/author/username";
    "/get/post/title"; "/get/post/comment/content";
    "/get/post/comment/author/email"; "/get/post/comment/author/username";
    "/get/post/comment/author/badges/label";
    "/get/post/comment/author/badges/owners/email" ].
Proof. reflexivity. Qed.

Example getPaths_nested_createMany :
  getPaths CreateMany "Post"
    (argsOf CreateMany (Some (JArr [connectAuthor "johndoe"]))) =
  [ "/createmany/post/title"; "/createmany/post/author/username";
    "/list/post/title"; "/list/post/comment/content";
    "/list/post/comment/author/email"; "/list/post/comment/author/username";
    "/list/post/comment/author/badges/label";
    "/list/post/comment/author/badges/owners/email" ].
Proof. reflexivity. Qed.

(** *** The requested paths behind a select tree *)

(** Some path of [paths] starts with the field [key]. *)
Definition hasHead (key : string) (paths : list (list string)) : bool :=
  existsb (fun path => match path with
                       | k :: _ => (k =? key)%string
                       | [] => false
                       end) paths.

(** What follows [key] in the paths that start with it. *)
Definition tails (key : string) (paths : list (list string))
  : list (list string) :=
  flat_map (fun path => match path with
                        | k :: path' => if (k =? key)%string then [path'] else []
                        | [] => []
                        end) paths.

(** The select reached from the root along [path]. *)
Fixpoint descend (path : list string) (t : Select) : option Select :=
  match path with
  | [] => Some t
  | key :: path' =>
      match find key t with
      | Some sub => descend path' sub
      | None => None
      end
  end.

(** [p] is a path of [q] cut short. *)
Fixpoint isProperPrefix (p q : list string) : bool :=
  match p, q with
  | [], _ :: _ => true
  | k :: p', k' :: q' => (k =? k')%string && isProperPrefix p' q'
  | _, _ => false
  end.

(** The entries that no other entry extends: the leaves of the request. *)
Definition leafEntries (selectionSetList : list string) : list string :=
  let entries := requested selectionSetList in
  filter (fun entry =>
            negb (existsb (fun other =>
                             isProperPrefix (splitPath entry) (splitPath other))
                    entries))
    entries.

(** No field occurs twice in a select, at any level. *)
Fixpoint wellFormed (t : Select) : Prop :=
  match t with
  | SNil => True
  | SField key sub rest =>
      find key rest = None /\ wellFormed sub /\ wellFormed rest
  end.

Definition child (key : string) (t : Select) : Select :=
  match find key t with Some sub => sub | None => SNil end.

(** *** Requesting a path *)

Lemma insert_cons key path t :
  insert (key :: path) t =
  match t with
  | SNil => SField key (insert path SNil) SNil
  | SField k sub rest =>
      if (k =? key)%string then SField k (insert path sub) rest
      else SField k sub (insert (key :: path) rest)
  end.
Proof. destruct t; reflexivity. Qed.

Lemma find_insert_same key path t :
  find key (insert (key :: path) t) = Some (insert path (child key t)).
Proof.
  induction t as [| k sub _ rest IH]; rewrite insert_cons; unfold child.
  - simpl. now rewrite String.eqb_refl.
  - simpl. destruct (k =? key)%string eqn:Hk; simpl; rewrite Hk.
    + reflexivity.
    + exact IH.
Qed.

Lemma find_insert_other key key' path t :
  key' <> key -> find key (insert (key' :: path) t) = find key t.
Proof.
  intros Hne. induction t as [| k sub _ rest IH]; rewrite insert_cons.
  - simpl. now apply String.eqb_neq in Hne as ->.
  - destruct (k =? key')%string eqn:Hk; cbn [find].
    + apply String.eqb_eq in Hk as ->.
      now apply String.eqb_neq in Hne as ->.
    + now rewrite IH.
Qed.

Lemma insert_wellFormed path : forall t, wellFormed t -> wellFormed (insert path t).
Proof.
  induction path as [| key path IHp]; intros t; [trivial |].
  induction t as [| k sub _ rest IHrest]; intros Hwf; rewrite insert_cons.
  - cbn [wellFormed find]. repeat split. now apply IHp.
  - destruct Hwf as (Hk & Hsub & Hrest).
    destruct (k =? key)%string eqn:Hkey; cbn [wellFormed]; repeat split; auto.
    rewrite find_insert_other; [assumption |].
    intros ->. rewrite String.eqb_refl in Hkey. discriminate.
Qed.

Lemma buildTree_wellFormed paths : wellFormed (buildTree paths).
Proof.
  unfold buildTree. assert (H : wellFormed SNil) by exact I. revert H.
  generalize SNil. induction paths as [| path paths IH]; intros t Ht;
    [assumption |].
  simpl. now apply IH, insert_wellFormed.
Qed.

(** *** The fields of a built tree and the selects under them *)

Lemma find_fold_insert key paths : forall t,
  find key (fold_left (fun t path => insert path t) paths t) =
  if hasHead key paths || match find key t with Some _ => true | None => false end
  then Some (fold_left (fun t path => insert path t) (tails key paths)
               (child key t))
  else None.
Proof.
  induction paths as [| path paths IH]; intros t.
  - simpl. unfold child. now destruct (find key t).
  - cbn [fold_left]. rewrite IH. destruct path as [| k path'].
    + reflexivity.
    + cbn [hasHead existsb tails flat_map]. fold (hasHead key paths).
      fold (tails key paths). destruct (k =? key)%string eqn:Hk.
      * apply String.eqb_eq in Hk as ->. unfold child.
        rewrite !find_insert_same, orb_true_r.
        cbn [orb app fold_left]. reflexivity.
      * assert (Hne : k <> key)
          by (intros ->; rewrite String.eqb_refl in Hk; discriminate).
        unfold child. rewrite (find_insert_other _ _ _ _ Hne). reflexivity.
Qed.

(** The select under a field of a built tree is the tree built from what
    follows the field in the requested paths. *)
Lemma find_buildTree key paths :
  find key (buildTree paths) =
  if hasHead key paths then Some (buildTree (tails key paths)) else None.
Proof.
  unfold buildTree. rewrite find_fold_insert. simpl.
  now rewrite orb_false_r.
Qed.

Lemma In_keys_find key t : In key (keys t) <-> find key t <> None.
Proof.
  induction t as [| k sub _ rest IH]; simpl.
  - split; [intros [] | congruence].
  - destruct (k =? key)%string eqn:Hk.
    + apply String.eqb_eq in Hk. split; [discriminate | now left].
    + rewrite <- IH. split; [| tauto]. intros [-> | H]; [| assumption].
      rewrite String.eqb_refl in Hk. discriminate.
Qed.

Lemma hasHead_spec key paths :
  hasHead key paths = true <-> exists path, In (key :: path) paths.
Proof.
  unfold hasHead. rewrite existsb_exists. split.
  - intros ([| k path] & Hin & Hk); [discriminate |].
    apply String.eqb_eq in Hk as ->. eauto.
  - intros (path & Hin). exists (key :: path). split; [assumption |].
    apply String.eqb_refl.
Qed.

Lemma In_tails key path paths :
  In path (tails key paths) <-> In (key :: path) paths.
Proof.
  unfold tails. rewrite in_flat_map. split.
  - intros ([| k q] & Hin & Hq); [destruct Hq |].
    destruct (k =? key)%string eqn:Hk; [| destruct Hq].
    apply String.eqb_eq in Hk as ->. destruct Hq as [<- | []]. assumption.
  - intros Hin. exists (key :: path). split; [assumption |].
    rewrite String.eqb_refl. now left.
Qed.

Lemma buildTree_empty paths :
  buildTree paths = SNil <-> forall path, In path paths -> path = [].
Proof.
  split.
  - intros Hnil [| key path] Hin; [reflexivity |]. exfalso.
    assert (Hh : hasHead key paths = true) by (apply hasHead_spec; eauto).
    pose proof (find_buildTree key paths) as Hf.
    rewrite Hh, Hnil in Hf. discriminate.
  - intros Hall. destruct (buildTree paths) as [| k sub rest] eqn:Hb;
      [reflexivity |]. exfalso.
    pose proof (find_buildTree k paths) as Hf. rewrite Hb in Hf. simpl in Hf.
    rewrite String.eqb_refl in Hf.
    destruct (hasHead k paths) eqn:Hh; [| discriminate].
    apply hasHead_spec in Hh. destruct Hh as (path & Hin).
    specialize (Hall _ Hin). discriminate.
Qed.

(** *** The leaves of a built tree *)

Lemma descend_field key path k sub rest :
  descend (key :: path) (SField k sub rest) =
  if (k =? key)%string then descend path sub else descend (key :: path) rest.
Proof. simpl. now destruct (k =? key)%string. Qed.

Lemma leaves_descend t :
  wellFormed t ->
  forall path, In path (leaves t) <-> path <> [] /\ descend path t = Some SNil.
Proof.
  induction t as [| k sub IHsub rest IHrest]; intros Hwf path.
  - simpl. split; [intros [] |]. intros (Hne & Hd).
    destruct path; [congruence | discriminate].
  - destruct Hwf as (Hk & Hsub & Hrest). cbn [leaves]. rewrite in_app_iff.
    split.
    + intros [Hin | Hin].
      * destruct sub as [| k' sub' rest'].
        -- destruct Hin as [<- | []]. split; [discriminate |].
           rewrite descend_field, String.eqb_refl. reflexivity.
        -- apply in_map_iff in Hin. destruct Hin as (path' & <- & Hin).
           apply (IHsub Hsub) in Hin. destruct Hin as (_ & Hd).
           split; [discriminate |].
           now rewrite descend_field, String.eqb_refl.
      * apply (IHrest Hrest) in Hin. destruct Hin as (Hne & Hd).
        split; [assumption |]. destruct path as [| key path]; [congruence |].
        rewrite descend_field. destruct (k =? key)%string eqn:Hkey;
          [| assumption].
        apply String.eqb_eq in Hkey as <-. simpl in Hd. rewrite Hk in Hd.
        discriminate.
    + intros (Hne & Hd). destruct path as [| key path]; [congruence |].
      rewrite descend_field in Hd. destruct (k =? key)%string eqn:Hkey.
      * left. apply String.eqb_eq in Hkey as <-.
        destruct path as [| key' path'].
        -- simpl in Hd. injection Hd as ->. now left.
        -- assert (Hin : In (key' :: path') (leaves sub))
             by (apply (IHsub Hsub); split; [discriminate | assumption]).
           destruct sub; [destruct Hin |]. now apply in_map.
      * right. apply (IHrest Hrest). split; [discriminate | assumption].
Qed.

Lemma descend_buildTree path : forall paths,
  path <> [] ->
  (descend path (buildTree paths) = Some SNil <->
   (exists more, In (path ++ more)%list paths) /\
   (forall more, In (path ++ more)%list paths -> more = [])).
Proof.
  induction path as [| key path IH]; intros paths Hne; [congruence |].
  cbn [descend]. rewrite find_buildTree.
  destruct (hasHead key paths) eqn:Hh.
  - destruct path as [| key' path'].
    + cbn [descend app]. split.
      * intros Hd. injection Hd as Hd. split.
        -- apply hasHead_spec in Hh. exact Hh.
        -- intros more Hin. rewrite buildTree_empty in Hd.
           apply Hd. now apply In_tails.
      * intros (_ & Hall). f_equal. apply buildTree_empty.
        intros more Hin. apply Hall. now apply In_tails.
    + rewrite IH by discriminate. split.
      * intros ((more & Hin) & Hall). split.
        -- exists more. exact (proj1 (In_tails key _ paths) Hin).
        -- intros more' Hin'. apply Hall.
           exact (proj2 (In_tails key _ paths) Hin').
      * intros ((more & Hin) & Hall). split.
        -- exists more. exact (proj2 (In_tails key _ paths) Hin).
        -- intros more' Hin'. apply Hall.
           exact (proj1 (In_tails key _ paths) Hin').
  - split; [discriminate |]. intros ((more & Hin) & _).
    assert (Ht : hasHead key paths = true) by (apply hasHead_spec; eauto).
    rewrite Ht in Hh. discriminate.
Qed.

(** The leaves of a built tree are the requested paths that no requested
    path extends. *)
Lemma leaves_buildTree paths path :
  In path (leaves (buildTree paths)) <->
  path <> [] /\ In path paths /\
  (forall more, In (path ++ more)%list paths -> more = []).
Proof.
  rewrite (leaves_descend _ (buildTree_wellFormed paths)). split.
  - intros (Hne & Hd). apply (descend_buildTree _ _ Hne) in Hd.
    destruct Hd as ((more & Hin) & Hall). repeat split; try assumption.
    pose proof (Hall _ Hin) as ->. now rewrite app_nil_r in Hin.
  - intros (Hne & Hin & Hall). split; [assumption |].
    apply (descend_buildTree _ _ Hne). split; [| assumption].
    exists []. now rewrite app_nil_r.
Qed.

(** *** Paths as strings *)

Lemma splitPath_nonempty s : splitPath s <> [].
Proof.
  destruct s as [| c s]; simpl; [discriminate |].
  destruct (c =? "/")%char; [discriminate |].
  destruct (splitPath s); discriminate.
Qed.

Lemma joinPath_splitPath s : joinPath (splitPath s) = s.
Proof.
  unfold joinPath. induction s as [| c s IH]; [reflexivity |].
  cbn [splitPath]. pose proof (splitPath_nonempty s) as Hne.
  destruct (splitPath s) as [| segment segments]; [congruence |].
  destruct (c =? "/")%char eqn:Hc.
  - apply Ascii.eqb_eq in Hc as ->.
    change (String.concat "/" ("" :: segment :: segments))
      with ("" ++ "/" ++ String.concat "/" (segment :: segments)).
    now rewrite IH.
  - destruct segments as [| segment' segments'].
    + simpl in *. now rewrite IH.
    + change (String.concat "/" (String c segment :: segment' :: segments'))
        with (String c (segment ++ "/" ++ String.concat "/" (segment' :: segments'))).
      change (String.concat "/" (segment :: segment' :: segments'))
        with (segment ++ "/" ++ String.concat "/" (segment' :: segments')) in IH.
      now rewrite IH.
Qed.

Lemma isProperPrefix_spec p : forall q,
  isProperPrefix p q = true <-> exists more, more <> [] /\ q = (p ++ more)%list.
Proof.
  induction p as [| k p IH]; intros [| k' q]; simpl.
  - split; [discriminate |]. intros (more & Hne & H). congruence.
  - split; [| reflexivity]. intros _. exists (k' :: q).
    split; [discriminate | reflexivity].
  - split; [discriminate |]. intros (more & _ & H). discriminate.
  - rewrite andb_true_iff, String.eqb_eq, IH. split.
    + intros (-> & more & Hne & ->). eauto.
    + intros (more & Hne & H). injection H as -> ->. eauto.
Qed.

Lemma In_requested entry selectionSetList :
  In entry (requested selectionSetList) <->
  In entry selectionSetList /\ entry <> "__typename".
Proof.
  unfold requested, notTypename. rewrite filter_In, negb_true_iff.
  now rewrite String.eqb_neq.
Qed.

Lemma In_keys_buildTree key paths :
  In key (keys (buildTree paths)) <-> exists path, In (key :: path) paths.
Proof.
  rewrite In_keys_find, find_buildTree, <- hasHead_spec.
  destruct (hasHead key paths); split; congruence.
Qed.

(** *** Properties of the select tree *)

(** C6. In the select tree of a requested-fields list, a field is a key
    exactly when it is the first segment of an entry other than the
    [__typename] sentinel; the select under a key is the tree of what follows
    that key in the entries; and the leaf paths of the tree, joined again, are
    the entries that no other entry extends. *)
Theorem parseSelectionList_round_trip (selectionSetList : list string) :
  (forall key,
      In key (keys (parseSelectionList selectionSetList)) <->
      exists entry,
        In entry selectionSetList /\ entry <> "__typename" /\
        hd "" (splitPath entry) = key) /\
  (forall key,
      In key (keys (parseSelectionList selectionSetList)) ->
      find key (parseSelectionList selectionSetList) =
      Some (buildTree
              (tails key (map splitPath (requested selectionSetList))))) /\
  (forall entry,
      In entry (flattenSelect (parseSelectionList selectionSetList)) <->
      In entry (leafEntries selectionSetList)).
Proof.
  unfold parseSelectionList. split; [| split].
  - intros key. rewrite In_keys_buildTree. split.
    + intros (path & Hin). apply in_map_iff in Hin.
      destruct Hin as (entry & Hs & Hin). apply In_requested in Hin.
      exists entry. rewrite Hs. tauto.
    + intros (entry & Hin & Hne & Hhd).
      pose proof (splitPath_nonempty entry) as Hsplit.
      destruct (splitPath entry) as [| k path] eqn:Hs; [congruence |].
      simpl in Hhd. subst k. exists path. rewrite <- Hs.
      apply in_map, In_requested. tauto.
  - intros key Hin. rewrite find_buildTree.
    apply In_keys_buildTree, hasHead_spec in Hin. now rewrite Hin.
  - intros entry. unfold flattenSelect, leafEntries.
    rewrite in_map_iff, filter_In, negb_true_iff. split.
    + intros (path & <- & Hleaf). apply leaves_buildTree in Hleaf.
      destruct Hleaf as (_ & Hin & Hall). apply in_map_iff in Hin.
      destruct Hin as (e & <- & Hin). rewrite joinPath_splitPath.
      split; [assumption |].
      destruct (existsb _ (requested selectionSetList)) eqn:Hex;
        [| reflexivity].
      apply existsb_exists in Hex. destruct Hex as (other & Hother & Hpre).
      apply isProperPrefix_spec in Hpre. destruct Hpre as (more & Hne & Heq).
      exfalso. apply Hne, Hall. rewrite <- Heq. now apply in_map.
    + intros (Hin & Hnone). exists (splitPath entry).
      split; [apply joinPath_splitPath |]. apply leaves_buildTree.
      split; [apply splitPath_nonempty |]. split; [now apply in_map |].
      intros more Hmore. apply in_map_iff in Hmore.
      destruct Hmore as (other & Heq & Hother).
      destruct more as [| m more]; [reflexivity |]. exfalso.
      assert (Hex : existsb (fun other => isProperPrefix (splitPath entry)
                                            (splitPath other))
                      (requested selectionSetList) = true).
      { apply existsb_exists. exists other. split; [assumption |].
        apply isProperPrefix_spec. exists (m :: more).
        split; [discriminate | assumption]. }
      rewrite Hex in Hnone. discriminate.
Qed.

Lemma parseSelectionList_round_trip_witness :
  In "comment" (keys (parseSelectionList nestedSelection)) /\
  find "comment" (parseSelectionList nestedSelection) =
  Some (buildTree
          [ []; ["content"]; ["author"]; ["author"; "email"];
            ["author"; "username"]; ["author"; "badges"];
            ["author"; "badges"; "label"]; ["author"; "badges"; "owners"];
            ["author"; "badges"; "owners"; "email"] ]).
Proof.
  assert (H : In "comment" (keys (parseSelectionList nestedSelection))).
  { apply (proj1 (parseSelectionList_round_trip nestedSelection)).
    exists "comment/content". repeat split.
    - simpl. tauto.
    - discriminate. }
  split; [exact H |].
  exact (proj1 (proj2 (parseSelectionList_round_trip nestedSelection))
           "comment" H).
Defined.

(** *** Properties of the normalized arguments *)

Lemma parseOrderBy_singletons pairs :
  parseOrderBy (map (fun pair => [pair]) pairs) =
  inr (map (fun pair => (fst pair, toLowerCase (snd pair))) pairs).
Proof.
  induction pairs as [| [field direction] pairs IH]; [reflexivity |].
  cbn [map parseOrderBy parseOrder fst snd]. now rewrite IH.
Qed.

Lemma parseOrderBy_malformed entries entry :
  In entry entries -> (1 < List.length entry)%nat ->
  parseOrderBy entries = inl (MALFORMED_ARGUMENT "orderBy").
Proof.
  intros Hin Hlen. induction entries as [| e entries IH]; [destruct Hin |].
  cbn [parseOrderBy]. destruct Hin as [-> | Hin].
  - destruct entry as [| [f d] [| p entry]]; simpl in Hlen; try lia.
    reflexivity.
  - rewrite (IH Hin). destruct (parseOrder e) as [[m] | order] eqn:He;
      [| reflexivity].
    destruct e as [| [f d] [| p e]]; simpl in He; congruence.
Qed.

(** C7. For the list action, when the arguments are well formed: with a
    default pagination of [n], [skip] is the given one or 0 and [take] is the
    given one or [n] (so an absent [take] becomes [n], a given [take] is kept,
    and an absent [skip] becomes 0 in both cases); with the default pagination
    disabled, [skip] and [take] are the given ones, absent when not given. *)
Theorem getArgs_default_pagination_applies
  (_arguments : RawArguments) (defaultPagination : Pagination)
  (orders : option (list (string * string))) (givenSkip givenTake : option Z) :
  optionally parseOrderBy (rawOrderBy _arguments) = inr orders ->
  optionally (toInteger "skip") (rawSkip _arguments) = inr givenSkip ->
  optionally (toInteger "take") (rawTake _arguments) = inr givenTake ->
  exists args,
    getArgs List _arguments defaultPagination = inr args /\
    match defaultPagination with
    | PageSize n =>
        skip args = Some (orElse givenSkip 0) /\
        take args = Some (orElse givenTake n) /\
        (rawSkip _arguments = None -> skip args = Some 0) /\
        (rawTake _arguments = None -> take args = Some n)
    | NoPagination =>
        skip args = givenSkip /\ take args = givenTake /\
        (rawSkip _arguments = None -> skip args = None) /\
        (rawTake _arguments = None -> take args = None)
    end.
Proof.
  intros Horder Hskip Htake. unfold getArgs.
  rewrite Horder, Hskip, Htake. eexists. split; [reflexivity |].
  assert (Hs : rawSkip _arguments = None -> givenSkip = None).
  { intros Hnone. rewrite Hnone in Hskip. simpl in Hskip. congruence. }
  assert (Ht : rawTake _arguments = None -> givenTake = None).
  { intros Hnone. rewrite Hnone in Htake. simpl in Htake. congruence. }
  destruct defaultPagination as [n |]; cbn [pageSize skip take];
    repeat split; intros Hnone;
    try rewrite (Hs Hnone); try rewrite (Ht Hnone); reflexivity.
Qed.

Lemma getArgs_default_pagination_applies_witness :
  exists args,
    getArgs List
      {| rawWhere := None; rawData := None; rawOrderBy := None;
         rawSkip := None; rawTake := Some (JStr "3");
         rawSkipDuplicates := None; selectionSetList := None |}
      (PageSize 50) = inr args /\
    skip args = Some 0 /\ take args = Some 3 /\
    (@None JValue = None -> skip args = Some 0) /\
    (Some (JStr "3") = None -> take args = Some 50).
Proof.
  exact (getArgs_default_pagination_applies
           {| rawWhere := None; rawData := None; rawOrderBy := None;
              rawSkip := None; rawTake := Some (JStr "3");
              rawSkipDuplicates := None; selectionSetList := None |}
           (PageSize 50) None None (Some 3) eq_refl eq_refl eq_refl).
Defined.

(** C9. When an entry of [orderBy] has more than one key, [getArgs] fails
    with an error, whatever the other arguments are; when every entry has a
    single key and [skip] and [take] are well formed, [getArgs] returns the
    entries with their directions in lower case. *)
Theorem getArgs_orderBy_single_key
  (action : Action) (_arguments : RawArguments) (defaultPagination : Pagination) :
  (forall entries entry,
      rawOrderBy _arguments = Some entries ->
      In entry entries -> (1 < List.length entry)%nat ->
      getArgs action _arguments defaultPagination =
        inl (MALFORMED_ARGUMENT "orderBy")) /\
  (forall pairs givenSkip givenTake,
      rawOrderBy _arguments = Some (map (fun pair => [pair]) pairs) ->
      optionally (toInteger "skip") (rawSkip _arguments) = inr givenSkip ->
      optionally (toInteger "take") (rawTake _arguments) = inr givenTake ->
      exists args,
        getArgs action _arguments defaultPagination = inr args /\
        orderBy args =
          Some (map (fun pair => (fst pair, toLowerCase (snd pair))) pairs)).
Proof.
  split.
  - intros entries entry Horder Hin Hlen. unfold getArgs. rewrite Horder.
    cbn [optionally]. now rewrite (parseOrderBy_malformed _ _ Hin Hlen).
  - intros pairs givenSkip givenTake Horder Hskip Htake. unfold getArgs.
    rewrite Horder. cbn [optionally]. rewrite parseOrderBy_singletons.
    rewrite Hskip, Htake. eexists. split; reflexivity.
Qed.

Lemma getArgs_orderBy_single_key_witness :
  getArgs List
    {| rawWhere := None; rawData := None;
       rawOrderBy :=
         Some [[("title", "ASC"); ("content", "DESC")]; [("postedAt", "DESC")]];
       rawSkip := None; rawTake := None; rawSkipDuplicates := None;
       selectionSetList := None |}
    NoPagination = inl (MALFORMED_ARGUMENT "orderBy").
Proof.
  apply (proj1 (getArgs_orderBy_single_key List
                  {| rawWhere := None; rawData := None;
                     rawOrderBy :=
                       Some [[("title", "ASC"); ("content", "DESC")];
                             [("postedAt", "DESC")]];
                     rawSkip := None; rawTake := None;
                     rawSkipDuplicates := None; selectionSetList := None |}
                  NoPagination)
           [[("title", "ASC"); ("content", "DESC")]; [("postedAt", "DESC")]]
           [("title", "ASC"); ("content", "DESC")] eq_refl).
  - now left.
  - simpl. lia.
Defined.

(** *** Properties of the generated paths *)

Definition isScalar (v : JValue) : bool :=
  match v with
  | JObj _ | JArr _ => false
  | _ => true
  end.

(** A field of a record of the payload, as section 4.3 words it: a scalar
    field, or a relation field that connects a record by its keys. *)
Inductive Written : Type :=
| WriteScalar (field : string) (value : JValue)
| WriteConnect (relationField : string) (keys : list (string * JValue)).

(** A payload: one record, or the records of a batch. *)
Inductive Payload : Type :=
| OneRecord (fields : list Written)
| ManyRecords (records : list (list Written)).

Definition writtenProp (w : Written) : string * JValue :=
  match w with
  | WriteScalar field value => (field, value)
  | WriteConnect relationField keys =>
      (relationField, JObj [("connect", JObj keys)])
  end.

Definition recordValue (fields : list Written) : JValue :=
  JObj (map writtenProp fields).

(** The payload as the value of the [data] argument. *)
Definition payloadValue (p : Payload) : JValue :=
  match p with
  | OneRecord fields => recordValue fields
  | ManyRecords records => JArr (map recordValue records)
  end.

(** The names are those of fields, not the [connect] keyword, and the values
    written are scalars. *)
Definition isFieldName (name : string) : bool :=
  negb (name =? "connect")%string.

Definition wellFormedWritten (w : Written) : bool :=
  match w with
  | WriteScalar field value => isFieldName field && isScalar value
  | WriteConnect relationField keys =>
      isFieldName relationField &&
      forallb (fun key => isFieldName (fst key) && isScalar (snd key)) keys
  end.

Definition wellFormedPayload (p : Payload) : bool :=
  match p with
  | OneRecord fields => forallb wellFormedWritten fields
  | ManyRecords records => forallb (forallb wellFormedWritten) records
  end.

(** What a field contributes below [/<action>/<model>/]: its name, or the
    name of the relation field followed by each key of the connection. *)
Definition writtenSegments (w : Written) : list (list string) :=
  match w with
  | WriteScalar field _ => [[field]]
  | WriteConnect relationField keys =>
      map (fun key => [relationField; fst key]) keys
  end.

Definition payloadSegments (p : Payload) : list (list string) :=
  match p with
  | OneRecord fields => flat_map writtenSegments fields
  | ManyRecords records => flat_map (flat_map writtenSegments) records
  end.

Lemma dataPaths_scalar prefix v :
  isScalar v = true -> dataPaths prefix v = [prefix].
Proof. destruct v; try discriminate; reflexivity. Qed.

Lemma dataPaths_object prefix props :
  dataPaths prefix (JObj props) =
  flat_map (fun p =>
              if (fst p =? "connect")%string then dataPaths prefix (snd p)
              else dataPaths (prefix ++ [fst p])%list (snd p)) props.
Proof.
  induction props as [| [key v] rest IH]; [reflexivity |].
  cbn [flat_map fst snd]. rewrite <- IH. reflexivity.
Qed.

Lemma dataPaths_array prefix items :
  dataPaths prefix (JArr items) = flat_map (dataPaths prefix) items.
Proof.
  induction items as [| item rest IH]; [reflexivity |].
  cbn [flat_map]. rewrite <- IH. reflexivity.
Qed.

Lemma dataPaths_keys prefix keys :
  forallb (fun key => isFieldName (fst key) && isScalar (snd key)) keys = true ->
  dataPaths prefix (JObj keys) =
  map (fun key => (prefix ++ [fst key])%list) keys.
Proof.
  rewrite dataPaths_object.
  induction keys as [| [key v] rest IH]; [reflexivity |].
  cbn [forallb flat_map map fst snd]. unfold isFieldName at 1.
  intros H. apply andb_true_iff in H as (H & Hrest).
  apply andb_true_iff in H as (Hkey & Hv). apply negb_true_iff in Hkey.
  now rewrite Hkey, (dataPaths_scalar _ _ Hv), (IH Hrest).
Qed.

Lemma dataPaths_record fields :
  forallb wellFormedWritten fields = true ->
  dataPaths [] (recordValue fields) = flat_map writtenSegments fields.
Proof.
  unfold recordValue. rewrite dataPaths_object.
  induction fields as [| [field value | relationField keys] rest IH];
    [reflexivity | |];
    cbn [forallb map flat_map wellFormedWritten writtenProp writtenSegments
         fst snd];
    intros H; apply andb_true_iff in H as (H & Hrest);
    apply andb_true_iff in H as (Hname & H);
    apply negb_true_iff in Hname; rewrite Hname, (IH Hrest).
  - now rewrite (dataPaths_scalar _ _ H).
  - rewrite dataPaths_object. cbn [flat_map fst snd].
    rewrite String.eqb_refl, (dataPaths_keys _ _ H), app_nil_r.
    reflexivity.
Qed.

Lemma dataPaths_payload p :
  wellFormedPayload p = true ->
  dataPaths [] (payloadValue p) = payloadSegments p.
Proof.
  destruct p as [fields | records]; cbn [wellFormedPayload payloadValue
                                           payloadSegments].
  - apply dataPaths_record.
  - rewrite dataPaths_array.
    induction records as [| fields records IH]; [reflexivity |].
    cbn [forallb map flat_map]. intros H.
    apply andb_true_iff in H as (H & Hrest).
    now rewrite (dataPaths_record _ H), (IH Hrest).
Qed.

(** C5. For a write action, the generated paths are the write-paths of the
    payload followed by the read-paths of the select tree. The write-paths
    are, record after record and field after field,
    [/<action>/<model>/<field>] for a scalar field and
    [/<action>/<model>/<relationField>/<connectKeyField>] for a relation
    field that connects a record by a key; the read-paths are those of the
    leaves of the select tree, under [/list/] for a mutation on several
    records and under [/get/] for a mutation on one; an absent payload or
    select contributes no path. *)
Theorem getPaths_write_then_read
  (action : Action) (model : string) (args : QueryArgs)
  (payload : option Payload) :
  In action [Create; CreateMany; Update; UpdateMany; Upsert; Delete;
             DeleteMany] ->
  data args = option_map payloadValue payload ->
  (forall p, payload = Some p -> wellFormedPayload p = true) ->
  getPaths action model args =
    (map (fun segments =>
            toLowerCase ("/" ++ actionName action ++ "/" ++ model ++ "/"
                         ++ joinPath segments))
       match payload with
       | Some p => payloadSegments p
       | None => []
       end
     ++
     map (fun leaf =>
            toLowerCase (match action with
                         | CreateMany | UpdateMany | DeleteMany => "/list/"
                         | _ => "/get/"
                         end ++ model ++ "/" ++ joinPath leaf))
       match select args with
       | Some t => leaves t
       | None => []
       end)%list.
Proof.
  intros Haction Hdata Hwf. unfold getPaths.
  assert (Hwrite : isWriteAction action = true)
    by (simpl in Haction; repeat destruct Haction as [<- | Haction];
        try reflexivity; destruct Haction).
  rewrite Hwrite, Hdata. f_equal.
  - destruct payload as [p |]; [| reflexivity]. cbn [option_map].
    unfold writePaths. now rewrite (dataPaths_payload p (Hwf p eq_refl)).
  - destruct (select args) as [t |]; [| reflexivity].
    unfold readPaths. apply map_ext. intros leaf.
    simpl in Haction; repeat destruct Haction as [<- | Haction];
      try reflexivity; destruct Haction.
Qed.

Lemma getPaths_write_then_read_witness :
  getPaths CreateMany "Post"
    (argsOf CreateMany (Some (JArr [connectAuthor "johndoe"]))) =
  [ "/createmany/post/title"; "/createmany/post/author/username";
    "/list/post/title"; "/list/post/comment/content";
    "/list/post/comment/author/email"; "/list/post/comment/author/username";
    "/list/post/comment/author/badges/label";
    "/list/post/comment/author/badges/owners/email" ] /\
  getPaths Update "Post" (argsOf Update (Some (connectAuthor "other user"))) =
  [ "/update/post/title"; "/update/post/author/username";
    "/get/post/title"; "/get/post/comment/content";
    "/get/post/comment/author/email"; "/get/post/comment/author/username";
    "/get/post/comment/author/badges/label";
    "/get/post/comment/author/badges/owners/email" ].
Proof.
  split.
  - refine (getPaths_write_then_read CreateMany "Post"
              (argsOf CreateMany (Some (JArr [connectAuthor "johndoe"])))
              (Some (ManyRecords
                       [[ WriteScalar "title" (JStr "New title");
                          WriteConnect "author"
                            [("username", JStr "johndoe")] ]]))
              _ eq_refl _).
    + simpl. tauto.
    + intros p H. injection H as <-. reflexivity.
  - refine (getPaths_write_then_read Update "Post"
              (argsOf Update (Some (connectAuthor "other user")))
              (Some (OneRecord
                       [ WriteScalar "title" (JStr "New title");
                         WriteConnect "author"
                           [("username", JStr "other user")] ]))
              _ eq_refl _).
    + simpl. tauto.
    + intros p H. injection H as <-. reflexivity.
Defined.

End Adapter.

(** ** A call from the event to the decision

    Modelled from the spec: [guard.ts] and the parsing of the event in
    [adapter.ts] are not among the sources. The depth is the largest number of
    path segments below the [/<action>/<model>/] prefix (section 4.4), and the
    event is taken after the classification of its field name. *)

Module Pipeline.

Import Shield Client Adapter.

(** Modelled from the spec: the depth of a path in [getDepth] of [guard.ts],
    the number of its segments below the [/<action>/<model>/] prefix. *)
Definition pathDepth (path : string) : Z :=
  Z.of_nat (List.length (splitPath path)) - 3.

(** Modelled from the spec: [getDepth] of [guard.ts] (section 4.4), the
    largest depth of a path. *)
Definition getDepth (paths : list string) (_ : Context) : Z :=
  fold_left Z.max (map pathDepth paths) 0.

Record AppsyncEvent : Type := {
  fieldName : string;
  eventAction : Action;
  eventModel : string;
  arguments : RawArguments
}.

(** The normalized arguments as the object handed to Prisma. *)
Definition prismaArgsOf (args : QueryArgs) : Args :=
  let prop {A : Type} (key : string) (f : A -> JValue) (o : option A) : Args :=
    match o with Some x => [(key, f x)] | None => [] end in
  (prop "select" (fun t => JObj (selectValue t)) (select args)
   ++ prop "where" (fun v => v) (where_ args)
   ++ prop "data" (fun v => v) (data args)
   ++ prop "orderBy"
        (fun orders =>
           JArr (map (fun order => JObj [(fst order, JStr (snd order))]) orders))
        (orderBy args)
   ++ prop "skip" JNum (skip args)
   ++ prop "take" JNum (take args)
   ++ prop "skipDuplicates" JBool (skipDuplicates args))%list.

(** Modelled from the spec: [parseEvent] of [adapter.ts], from the normalized
    arguments on; the classification of the field name is taken as done. *)
Definition parseEvent (appsyncEvent : AppsyncEvent) (options : Options)
  (_ : option Resolvers) : Exception + QueryParams :=
  match getArgs (eventAction appsyncEvent) (arguments appsyncEvent)
          (defaultPagination options) with
  | inl (MALFORMED_ARGUMENT message) => inl (CustomError message "BAD_USER_INPUT")
  | inr args =>
      inr {| operation := fieldName appsyncEvent;
             context :=
               {| action := actionName (eventAction appsyncEvent);
                  alias := match eventAction appsyncEvent with
                           | Get | List | Count => "access"
                           | Create | CreateMany => "create"
                           | _ => "modify"
                           end;
                  model := Some (eventModel appsyncEvent) |};
             paths := getPaths (eventAction appsyncEvent)
                        (eventModel appsyncEvent) args;
             prismaArgs := prismaArgsOf args |}
  end.

Definition noEnv : Env :=
  {| DATABASE_URL := None; PRISMA_APPSYNC_GENERATED_CONFIG := None;
     PRISMA_APPSYNC_DEBUG := None; PRISMA_APPSYNC_TESTING := None |}.

(** The client with its default options. *)
Definition defaultOptions : Options :=
  {| generatedConfig := JObj []; connectionString := "undefined";
     sanitize := true; debug := true; defaultPagination := PageSize 50;
     maxDepth := 3 |}.

(** [getPost] with the nested selection of the unit tests: its deepest
    field, [comment/author/badges/owners/email], is five segments deep. *)
Definition getPostEvent : AppsyncEvent :=
  {| fieldName := "getPost"; eventAction := Get; eventModel := "Post";
     arguments :=
       {| rawWhere := None; rawData := None; rawOrderBy := None;
          rawSkip := None; rawTake := None; rawSkipDuplicates := None;
          selectionSetList := Some nestedSelection |} |}.

Definition denyAll (_ : QueryParams) : Exception + Shield :=
  inr [("**", RuleBoolean false)].

Lemma resolve_depth_exceeded_witness :
  resolve AppsyncEvent parseEvent getDepth
    (getAuthorization globMatch deepMerge) (fun e => e)
    (fun m => match m with Some "" | None => true | _ => false end)
    (fun _ _ _ => inr JNull) (fun _ => false)
    defaultOptions noEnv
    {| event := getPostEvent; resolvers := None; shield := Some denyAll |}
    {| prismaClient := []; calls := [] |} =
  ({| prismaClient := []; calls := [CallParseEvent; CallGetDepth] |},
   Rejected
     (CustomError "Query has depth of 5, which exceeds max depth of 3."
        "FORBIDDEN")).
Proof.
  refine (resolve_depth_exceeded AppsyncEvent parseEvent getDepth
            (getAuthorization globMatch deepMerge) (fun e => e) _ _ _
            (fun _ => None) None noEnv defaultOptions _ noEnv
            {| event := getPostEvent; resolvers := None; shield := Some denyAll |}
            {| prismaClient := []; calls := [] |} _ eq_refl eq_refl eq_refl).
Defined.

(** *** Calls that pass the depth guard *)

(** [listPosts] with a selection two segments deep. *)
Definition listPostsEvent : AppsyncEvent :=
  {| fieldName := "listPosts"; eventAction := List; eventModel := "Post";
     arguments :=
       {| rawWhere := Some (JObj [("title", JStr "Hello")]);
          rawData := None; rawOrderBy := None;
          rawSkip := None; rawTake := None; rawSkipDuplicates := None;
          selectionSetList := Some ["title"; "author"; "author/name"] |} |}.

Definition listPostsQuery : QueryParams :=
  {| operation := "listPosts";
     context := {| action := "list"; alias := "access"; model := Some "Post" |};
     paths := ["/list/post/title"; "/list/post/author/name"];
     prismaArgs :=
       [ ("select",
            JObj [ ("title", JBool true);
                   ("author", JObj [("select", JObj [("name", JBool true)])]) ]);
         ("where", JObj [("title", JStr "Hello")]);
         ("skip", JNum 0); ("take", JNum 50) ] |}.

Example parseEvent_listPosts :
  parseEvent listPostsEvent defaultOptions None = inr listPostsQuery.
Proof. reflexivity. Qed.

(** A shield that denies the titles of posts, and one that narrows the posts
    to those of an author. *)
Definition denyTitles : Shield :=
  [ ("/list/post/*",
       RuleObject (JBool false) (Some (ReasonString "titles are private"))) ].

Definition ownPosts : Shield :=
  [ ("/list/post/*", RuleObject (JObj [("authorId", JNum 7)]) None) ].

Definition isEmptyModel (m : option string) : bool :=
  match m with
  | None => true
  | Some name => (name =? "")%string
  end.

(** A query that hands back the arguments it would run with, after the
    middlewares of the client. *)
Definition runQuery (name : string) (client : list Middleware)
  (queryParams : QueryParams) : Exception + JValue :=
  match
    fold_left (fun args middleware =>
                 match args with
                 | inl e => inl e
                 | inr args => middleware args
                 end) client (inr (prismaArgs queryParams))
  with
  | inl e => inl e
  | inr args => inr (JObj (("query", JStr name) :: args))
  end.

Definition resolveParamsOf (e : AppsyncEvent) (s : Shield)
  : ResolveParams AppsyncEvent :=
  {| event := e; resolvers := None; shield := Some (fun _ => inr s) |}.

Definition emptyWorld : World := {| prismaClient := []; calls := [] |}.

Definition testingEnv : Env :=
  {| DATABASE_URL := None; PRISMA_APPSYNC_GENERATED_CONFIG := None;
     PRISMA_APPSYNC_DEBUG := None; PRISMA_APPSYNC_TESTING := Some "true" |}.

(** [resolve] on these collaborators. *)
Definition resolveWith :=
  resolve AppsyncEvent parseEvent getDepth
    (getAuthorization globMatch deepMerge) (fun e => e) isEmptyModel runQuery
    (fun _ => false).

Lemma passesGuards_listPosts_ownPosts :
  passesGuards AppsyncEvent parseEvent getDepth
    (getAuthorization globMatch deepMerge) defaultOptions
    (resolveParamsOf listPostsEvent ownPosts) listPostsQuery ownPosts.
Proof. repeat split. vm_compute. discriminate. Qed.

Example resolve_listPosts_ownPosts :
  resolveWith defaultOptions noEnv (resolveParamsOf listPostsEvent ownPosts)
    emptyWorld =
  ({| prismaClient :=
        [shieldMiddleware (fun _ => false) (JObj [("authorId", JNum 7)])];
      calls := [ CallParseEvent; CallGetDepth; CallShield;
                 CallGetShieldAuthorization; CallUse; CallQuery "listQuery" ] |},
   Resolved
     (ResultsValue
        (JObj [ ("query", JStr "listQuery");
                ("select",
                   JObj [ ("title", JBool true);
                          ("author",
                             JObj [("select", JObj [("name", JBool true)])]) ]);
                ("where", JObj [("authorId", JNum 7)]);
                ("skip", JNum 0); ("take", JNum 50) ]))).
Proof. reflexivity. Qed.

(** *** The properties of the client at these calls *)

Lemma shieldMiddleware_enforces_filter_witness :
  (getProp "where" [("where", JObj [("authorId", JNum 7)]); ("take", JNum 10)]
     = JObj [("authorId", JNum 7)] \/
   getProp "where" [("where", JObj [("authorId", JNum 7)]); ("take", JNum 10)]
     = JObj [("AND", JArr [JObj [("title", JStr "Hello")];
                          JObj [("authorId", JNum 7)]])]) /\
  (forall key,
      key <> "where" ->
      getProp key [("where", JObj [("authorId", JNum 7)]); ("take", JNum 10)] =
      getProp key [("where", JObj [("title", JStr "Hello")]); ("take", JNum 10)]).
Proof.
  exact (shieldMiddleware_enforces_filter (fun _ => false)
           (JObj [("authorId", JNum 7)])
           [("where", JObj [("title", JStr "Hello")]); ("take", JNum 10)]
           [("where", JObj [("authorId", JNum 7)]); ("take", JNum 10)]
           eq_refl).
Defined.

Lemma shieldMiddleware_second_replaces_first_witness :
  shieldMiddleware (fun _ => false) (JObj [("published", JBool true)])
    [("take", JNum 10); ("where", JObj [("authorId", JNum 7)])] =
    inr (setProp "where" (JObj [("published", JBool true)])
           [("take", JNum 10); ("where", JObj [("authorId", JNum 7)])]) /\
  getProp "where"
    (setProp "where" (JObj [("published", JBool true)])
       [("take", JNum 10); ("where", JObj [("authorId", JNum 7)])]) =
    JObj [("published", JBool true)].
Proof.
  exact (shieldMiddleware_second_replaces_first (fun _ => false)
           [("authorId", JNum 7)] (JObj [("published", JBool true)])
           [("take", JNum 10)]
           [("take", JNum 10); ("where", JObj [("authorId", JNum 7)])]
           eq_refl eq_refl).
Defined.

Lemma resolve_access_denied_witness :
  resolveWith defaultOptions noEnv (resolveParamsOf listPostsEvent denyTitles)
    emptyWorld =
    ({| prismaClient := [];
        calls := [ CallParseEvent; CallGetDepth; CallShield;
                   CallGetShieldAuthorization ] |},
     Rejected (CustomError "titles are private" "FORBIDDEN")) /\
  existsb isExecution
    [CallParseEvent; CallGetDepth; CallShield; CallGetShieldAuthorization]
    = false.
Proof.
  refine (resolve_access_denied AppsyncEvent parseEvent getDepth
            (getAuthorization globMatch deepMerge) (fun e => e) isEmptyModel
            runQuery (fun _ => false) defaultOptions noEnv
            (resolveParamsOf listPostsEvent denyTitles) emptyWorld
            listPostsQuery denyTitles eq_refl _ eq_refl eq_refl).
  vm_compute. discriminate.
Defined.

Lemma resolve_guards_before_execution_witness :
  exists queryParams shield,
    passesGuards AppsyncEvent parseEvent getDepth
      (getAuthorization globMatch deepMerge) defaultOptions
      (resolveParamsOf listPostsEvent ownPosts) queryParams shield.
Proof.
  exact (resolve_guards_before_execution AppsyncEvent parseEvent getDepth
           (getAuthorization globMatch deepMerge) (fun e => e) isEmptyModel
           runQuery (fun _ => false) defaultOptions noEnv
           (resolveParamsOf listPostsEvent ownPosts) [] _ _
           resolve_listPosts_ownPosts eq_refl).
Defined.

Lemma resolve_client_only_grows_witness :
  let w' :=
    fst (resolveWith defaultOptions noEnv
           (resolveParamsOf listPostsEvent ownPosts) emptyWorld) in
  prismaClient w' = prismaClient emptyWorld \/
  exists queryParams shield,
    passesGuards AppsyncEvent parseEvent getDepth
      (getAuthorization globMatch deepMerge) defaultOptions
      (resolveParamsOf listPostsEvent ownPosts) queryParams shield /\
    truthy (prismaFilter
              (getAuthorization globMatch deepMerge shield (paths queryParams)))
      = true /\
    prismaClient w' =
      (prismaClient emptyWorld
       ++ [shieldMiddleware (fun _ => false)
             (prismaFilter
                (getAuthorization globMatch deepMerge shield
                   (paths queryParams)))])%list.
Proof.
  exact (resolve_client_only_grows AppsyncEvent parseEvent getDepth
           (getAuthorization globMatch deepMerge) (fun e => e) isEmptyModel
           runQuery (fun _ => false) defaultOptions noEnv
           (resolveParamsOf listPostsEvent ownPosts) emptyWorld _ _
           resolve_listPosts_ownPosts).
Defined.

(** Modelled from the spec: what the function members of [Object.prototype]
    return when they are called on the resolvers with the query, where the
    result is a JSON value; the objects that [constructor] and [valueOf]
    return are shown as [{}]. *)
Definition objectMember (name : string) (_ : QueryParams)
  : Exception + JValue :=
  if existsb (String.eqb name) ["toString"; "toLocaleString"]
  then inr (JStr "[object Object]")
  else if existsb (String.eqb name)
            ["hasOwnProperty"; "isPrototypeOf"; "propertyIsEnumerable"]
  then inr (JBool false)
  else if existsb (String.eqb name) ["__lookupGetter__"; "__lookupSetter__"]
  then inr JUndefined
  else if existsb (String.eqb name) ["__defineGetter__"; "__defineSetter__"]
  then inl (TypeError "Object.prototype.__defineGetter__: Expecting function")
  else inr (JObj []).

(** The call with an object literal as resolvers. *)
Definition withEntries (entries : list (string * Resolver))
  : ResolveParams AppsyncEvent :=
  {| event := listPostsEvent;
     resolvers := Some (objectLiteral objectMember entries);
     shield := Some (fun _ => inr ownPosts) |}.

Lemma passesGuards_withEntries entries :
  passesGuards AppsyncEvent parseEvent getDepth
    (getAuthorization globMatch deepMerge) defaultOptions
    (withEntries entries) listPostsQuery ownPosts.
Proof. repeat split. vm_compute. discriminate. Qed.

Lemma resolve_builtin_query_witness :
  resolveWith defaultOptions noEnv (withEntries []) emptyWorld =
  (afterCalls [CallQuery "listQuery"]
     (afterGuards AppsyncEvent (fun _ => false) (withEntries [])
        (JObj [("authorId", JNum 7)]) emptyWorld),
   match runQuery "listQuery"
           [shieldMiddleware (fun _ => false) (JObj [("authorId", JNum 7)])]
           listPostsQuery with
   | inl e => Rejected e
   | inr v => Resolved (ResultsValue v)
   end).
Proof.
  exact (resolve_builtin_query AppsyncEvent parseEvent getDepth
           (getAuthorization globMatch deepMerge) (fun e => e) isEmptyModel
           runQuery (fun _ => false) defaultOptions noEnv
           (withEntries []) emptyWorld
           listPostsQuery ownPosts (passesGuards_withEntries [])
           eq_refl (or_introl eq_refl) eq_refl).
Defined.

(** An operation named after a member of [Object.prototype]: with the
    resolvers [{}] the inherited function resolves the call, and no query
    runs. *)
Definition toStringEvent : AppsyncEvent :=
  {| fieldName := "toString"; eventAction := Get; eventModel := "Post";
     arguments :=
       {| rawWhere := None; rawData := None; rawOrderBy := None;
          rawSkip := None; rawTake := None; rawSkipDuplicates := None;
          selectionSetList := Some ["title"] |} |}.

Example resolve_inherited_member :
  resolveWith defaultOptions noEnv
    {| event := toStringEvent;
       resolvers := Some (objectLiteral objectMember []);
       shield := None |} emptyWorld =
  ({| prismaClient := [];
      calls := [ CallParseEvent; CallGetDepth; CallGetShieldAuthorization;
                 CallResolver "toString" ] |},
   Resolved (ResultsValue (JStr "[object Object]"))).
Proof. reflexivity. Qed.

(** The same call with the resolver of [listPosts] disabled, or given. *)
Definition withResolver (r : Resolver) : ResolveParams AppsyncEvent :=
  {| event := listPostsEvent;
     resolvers := Some (objectLiteral objectMember [("listPosts", r)]);
     shield := Some (fun _ => inr ownPosts) |}.

Lemma passesGuards_withResolver r :
  passesGuards AppsyncEvent parseEvent getDepth
    (getAuthorization globMatch deepMerge) defaultOptions
    (withResolver r) listPostsQuery ownPosts.
Proof. repeat split. vm_compute. discriminate. Qed.

Lemma resolve_disabled_resolver_witness :
  resolveWith defaultOptions noEnv (withResolver (ResolverBoolean false))
    emptyWorld =
  ({| prismaClient :=
        [shieldMiddleware (fun _ => false) (JObj [("authorId", JNum 7)])];
      calls := [ CallParseEvent; CallGetDepth; CallShield;
                 CallGetShieldAuthorization; CallUse ] |},
   Rejected
     (CustomError "Query resolver for listPosts is disabled." "FORBIDDEN")).
Proof.
  exact (resolve_disabled_resolver AppsyncEvent parseEvent getDepth
           (getAuthorization globMatch deepMerge) (fun e => e) isEmptyModel
           runQuery (fun _ => false) defaultOptions noEnv
           (withResolver (ResolverBoolean false)) emptyWorld
           listPostsQuery ownPosts
           (passesGuards_withResolver (ResolverBoolean false))
           eq_refl eq_refl).
Defined.

Definition countPaths (queryParams : QueryParams) : Exception + JValue :=
  inr (JNum (Z.of_nat (List.length (paths queryParams)))).

Lemma resolve_custom_resolver_witness :
  resolveWith defaultOptions noEnv (withResolver (ResolverFunction countPaths))
    emptyWorld =
  ({| prismaClient :=
        [shieldMiddleware (fun _ => false) (JObj [("authorId", JNum 7)])];
      calls := [ CallParseEvent; CallGetDepth; CallShield;
                 CallGetShieldAuthorization; CallUse;
                 CallResolver "listPosts" ] |},
   Resolved (ResultsValue (JNum 2))).
Proof.
  exact (resolve_custom_resolver AppsyncEvent parseEvent getDepth
           (getAuthorization globMatch deepMerge) (fun e => e) isEmptyModel
           runQuery (fun _ => false) defaultOptions noEnv
           (withResolver (ResolverFunction countPaths)) emptyWorld
           listPostsQuery ownPosts countPaths
           (passesGuards_withResolver (ResolverFunction countPaths))
           eq_refl eq_refl).
Defined.

Lemma resolve_testing_never_executes_witness :
  existsb isExecution
    (calls (fst (resolveWith defaultOptions testingEnv
                   (withResolver (ResolverBoolean false)) emptyWorld))) = false /\
  snd (resolveWith defaultOptions testingEnv
         (withResolver (ResolverBoolean false)) emptyWorld) =
    Resolved (ResultsQueryParams listPostsQuery).
Proof.
  destruct (resolve_testing_never_executes AppsyncEvent parseEvent getDepth
              (getAuthorization globMatch deepMerge) (fun e => e) isEmptyModel
              runQuery (fun _ => false) defaultOptions testingEnv
              (withResolver (ResolverBoolean false)) [] _ _
              eq_refl (surjective_pairing _)) as (Hnone & Hpass & _).
  split; [exact Hnone |].
  exact (Hpass listPostsQuery ownPosts
           (passesGuards_withResolver (ResolverBoolean false))).
Defined.

Lemma constructor_environment_witness :
  Some "undefined" = Some "undefined" /\
  connectionString defaultOptions = "undefined" /\
  Some "true" = Some (if debug defaultOptions then "true" else "false") /\
  @None string = None /\ @None string = None.
Proof.
  exact (constructor_environment (fun _ => None) None noEnv defaultOptions
           {| DATABASE_URL := Some "undefined";
              PRISMA_APPSYNC_GENERATED_CONFIG := None;
              PRISMA_APPSYNC_DEBUG := Some "true";
              PRISMA_APPSYNC_TESTING := None |} eq_refl).
Defined.

(** *** The properties of the preview client at these calls *)

Definition previewParse (appsyncEvent : AppsyncEvent) (_ : option Resolvers)
  : Exception + Preview.ResolverQuery :=
  match parseEvent appsyncEvent defaultOptions None with
  | inl e => inl e
  | inr queryParams =>
      inr {| Preview.queryAction := action (context queryParams);
             Preview.queryPaths := paths queryParams |}
  end.

Definition listPostsPreviewQuery : Preview.ResolverQuery :=
  {| Preview.queryAction := "list";
     Preview.queryPaths := ["/list/post/title"; "/list/post/author/name"] |}.

(** A query that hands back the [where] the middlewares of the client
    leave. *)
Definition previewQuery (name : string) (client : list Middleware)
  (_ : Preview.ResolverQuery) : Exception + JValue :=
  match
    fold_left (fun args middleware =>
                 match args with
                 | inl e => inl e
                 | inr args => middleware args
                 end) client (inr [])
  with
  | inl e => inl e
  | inr args => inr (JObj (("query", JStr name) :: args))
  end.

Definition previewResolve (jest : option string) :=
  Preview.resolve AppsyncEvent unit globMatch deepMerge previewParse
    (fun _ => None) previewQuery (fun _ => false) jest.

Definition noOptions : PrismaAppSyncOptionsType :=
  {| optConnectionString := None; optSanitize := None; optDebug := None;
     optDefaultPagination := None; optMaxDepth := None |}.

Definition freshWorld : Preview.World AppsyncEvent unit :=
  {| Preview.this := Preview.constructor AppsyncEvent unit noOptions None;
     Preview.calls := [] |}.

Definition previewParams (s : option Shield)
  : Preview.ResolveParams AppsyncEvent unit :=
  {| Preview.paramEvent := listPostsEvent;
     Preview.paramShield := option_map (fun rules _ => inr rules) s;
     Preview.paramHooks := None |}.

Lemma resolve_shield_read_once_witness :
  Preview.shield _ _
    (Preview.this _ _
       (fst (previewResolve None (previewParams (Some denyTitles)) freshWorld)))
    = Preview.paramShield _ _ (previewParams (Some denyTitles)) /\
  Preview.shield _ _
    (Preview.this _ _
       (fst (previewResolve None (previewParams (Some [])) 
               (fst (previewResolve None (previewParams (Some denyTitles))
                       freshWorld)))))
    = Preview.paramShield _ _ (previewParams (Some denyTitles)) /\
  Preview.shieldInUse _ _ (previewParams (Some []))
    (Preview.this _ _
       (fst (previewResolve None (previewParams (Some denyTitles)) freshWorld)))
    = Preview.paramShield _ _ (previewParams (Some denyTitles)).
Proof.
  exact (Preview.resolve_shield_read_once AppsyncEvent unit globMatch deepMerge
           previewParse (fun _ => None) previewQuery (fun _ => false) None
           (previewParams (Some denyTitles)) (previewParams (Some []))
           freshWorld eq_refl).
Defined.

Lemma resolve_without_shield_witness :
  previewResolve None (previewParams None) freshWorld =
  ({| Preview.this :=
        Preview.setResolverQuery _ _ listPostsPreviewQuery
          (Preview.received _ _ (previewParams None)
             (Preview.this _ _ freshWorld));
      Preview.calls := [Preview.CallParseEvent] |},
   Preview.Rejected (TypeError "this.shield is not a function")).
Proof.
  exact (Preview.resolve_without_shield AppsyncEvent unit globMatch deepMerge
           previewParse (fun _ => None) previewQuery (fun _ => false) None
           (previewParams None) freshWorld listPostsPreviewQuery
           eq_refl eq_refl).
Defined.

Lemma preview_access_denied_witness :
  exists r,
    reason (getAuthorization globMatch deepMerge denyTitles
              (Preview.queryPaths listPostsPreviewQuery)) = Some r /\
    previewResolve None (previewParams (Some denyTitles)) freshWorld =
      ({| Preview.this :=
            Preview.setResolverQuery _ _ listPostsPreviewQuery
              (Preview.received _ _ (previewParams (Some denyTitles))
                 (Preview.this _ _ freshWorld));
          Preview.calls :=
            ([] ++ [ Preview.CallParseEvent; Preview.CallShield;
                     Preview.CallUnauthorizedError
                       match r with
                       | ReasonString text => text
                       | ReasonFunction g => g tt
                       end ])%list |},
       Preview.Fulfilled None).
Proof.
  exact (Preview.preview_access_denied AppsyncEvent unit globMatch deepMerge
           previewParse (fun _ => None) previewQuery (fun _ => false) None
           (previewParams (Some denyTitles)) freshWorld listPostsPreviewQuery
           (fun _ => inr denyTitles) denyTitles
           eq_refl eq_refl eq_refl eq_refl).
Defined.

Lemma preview_access_allowed_witness :
  previewResolve None (previewParams (Some ownPosts)) freshWorld =
  ({| Preview.this :=
        Preview.use _ _
          (shieldMiddleware (fun _ => false) (JObj [("authorId", JNum 7)]))
          (Preview.setResolverQuery _ _ listPostsPreviewQuery
             (Preview.received _ _ (previewParams (Some ownPosts))
                (Preview.this _ _ freshWorld)));
      Preview.calls :=
        [ Preview.CallParseEvent; Preview.CallShield; Preview.CallUse;
          Preview.CallQuery "listQuery" ] |},
   Preview.Fulfilled
     (Some (Preview.ResultsValue
              (JObj [ ("query", JStr "listQuery");
                      ("where", JObj [("authorId", JNum 7)]) ])))).
Proof.
  exact (Preview.preview_access_allowed AppsyncEvent unit globMatch deepMerge
           previewParse (fun _ => None) previewQuery (fun _ => false) None
           (previewParams (Some ownPosts)) freshWorld listPostsPreviewQuery
           (fun _ => inr ownPosts) ownPosts
           eq_refl eq_refl eq_refl eq_refl).
Defined.

End Pipeline.
